(** * x-ten: hover provider for element screenshots

    A shallow embedding of [src/x-ten.js] (the VS Code extension that shows
    an element screenshot when the cursor rests on a variable whose value is
    a known selector) together with the properties of its specification.

    The source file holds two versions of the provider.  The first one
    (lines 1-294) supports Robot Framework and resolves values through a
    whole-document index; the second one (lines 296-515) looks at the cursor
    line and then scans the document.  [loadMetadata] and
    [extractVariableValue] are textually identical in both versions and are
    embedded once; what differs lives in [Module Legacy]. *)

From Stdlib Require Import List Ascii String ZArith Lia Bool.
From stdpp Require Import gmap strings list fin_maps.
Import ListNotations.

(** ** JavaScript values used by the provider *)

(** A string is its sequence of code units.  The embedding covers code
    units below 256 (Latin-1), written as [ascii]. *)
Abbreviation jsstr := (list ascii).

Definition str (s : string) : jsstr := list_ascii_of_string s.

(** [if (s)] on a string: the empty string is the only falsy one. *)
Definition truthy (s : jsstr) : bool :=
  match s with [] => false | _ :: _ => true end.

Definition code (c : ascii) : nat := nat_of_ascii c.

Definition between (lo hi : nat) (c : ascii) : bool :=
  (lo <=? code c) && (code c <=? hi).

Definition isChar (d : ascii) (c : ascii) : bool := Ascii.eqb c d.

(** [[a-zA-Z_]] *)
Definition isNameStart (c : ascii) : bool :=
  between 97 122 c || between 65 90 c || isChar "_" c.

(** [[a-zA-Z0-9_]] *)
Definition isNameChar (c : ascii) : bool :=
  isNameStart c || between 48 57 c.

(** [[a-zA-Z_$]] *)
Definition isWordStart (c : ascii) : bool := isNameStart c || isChar "$" c.

(** [[a-zA-Z0-9_$]] *)
Definition isWordChar (c : ascii) : bool := isNameChar c || isChar "$" c.

(** [\s] restricted to Latin-1: TAB, LF, VT, FF, CR, space and NBSP. *)
Definition isSpace (c : ascii) : bool :=
  between 9 13 c || isChar " " c || (code c =? 160).

(** [.] without the [s] flag: everything but the line terminators. *)
Definition isDot (c : ascii) : bool :=
  negb ((code c =? 10) || (code c =? 13)).

(** [[^q]] *)
Definition isNot (q : ascii) (c : ascii) : bool := negb (isChar q c).

(** [String.prototype.trim]: white space and line terminators, which on
    Latin-1 is the set of [\s]. *)
Fixpoint trimStart (s : jsstr) : jsstr :=
  match s with
  | c :: s' => if isSpace c then trimStart s' else s
  | [] => []
  end.

Definition trim (s : jsstr) : jsstr := rev (trimStart (rev (trimStart s))).

(** *** Objects used as maps

    [this.variableAssignmentCache = {}] and the result of [JSON.parse] are
    ordinary objects: a property read that finds no own property continues
    in [Object.prototype].  These are its property names; every one of them
    holds a function or an object, hence a truthy value that is not a
    string. *)
Definition objectPrototypeKeys : list jsstr :=
  map str [ "constructor"; "__defineGetter__"; "__defineSetter__";
            "hasOwnProperty"; "__lookupGetter__"; "__lookupSetter__";
            "isPrototypeOf"; "propertyIsEnumerable"; "toString"; "valueOf";
            "__proto__"; "toLocaleString" ]%string.

Definition inPrototype (k : jsstr) : bool :=
  bool_decide (k ∈ objectPrototypeKeys).

(** The outcome of [o[k]]. *)
Inductive property (A : Type) : Type :=
| Own (a : A)
| Inherited
| Undefined.
Arguments Own {A} a.
Arguments Inherited {A}.
Arguments Undefined {A}.

Definition js_get {A} (o : gmap jsstr A) (k : jsstr) : property A :=
  match o !! k with
  | Some a => Own a
  | None => if inPrototype k then Inherited else Undefined
  end.

(** ** Regular expressions

    The fragment of JavaScript regular expressions the source uses, with
    the backtracking semantics of [RegExp.prototype.exec]: alternatives are
    explored in priority order and the first overall success wins.  Every
    quantifier in the source ranges over a single character class, and every
    pattern has exactly one capture group. *)
Module RegExp.

Inductive item : Type :=
| Lit (c : ascii)                 (* a literal character *)
| Cls (p : ascii -> bool)         (* a character class *)
| Bol                             (* ^ without the m flag *)
| Eoi                             (* $ without the m flag *)
| Star (p : ascii -> bool)        (* class*  greedy *)
| Plus (p : ascii -> bool)        (* class+  greedy *)
| PlusLazy (p : ascii -> bool)    (* class+? reluctant *)
| Open                            (* ( of group 1 *)
| Close.                          (* ) of group 1 *)

Record found : Type := Found {
  f_end : nat;                    (* offset just after the match *)
  f_rest : jsstr;                 (* the input from there on *)
  f_group : option jsstr          (* match[1] *)
}.

Section Quantifiers.
Context {A : Type} (p : ascii -> bool) (k : nat -> jsstr -> option A).

(** Longest repetition first, giving characters back one at a time. *)
Fixpoint greedy (pos : nat) (s : jsstr) : option A :=
  match s with
  | c :: s' =>
      if p c then
        match greedy (S pos) s' with
        | Some r => Some r
        | None => k pos s
        end
      else k pos s
  | [] => k pos s
  end.

(** Shortest repetition first, taking one more character on failure. *)
Fixpoint reluctant (pos : nat) (s : jsstr) : option A :=
  match k pos s with
  | Some r => Some r
  | None =>
      match s with
      | c :: s' => if p c then reluctant (S pos) s' else None
      | [] => None
      end
  end.
End Quantifiers.

(** [run r op cap pos s] matches the pattern [r] against [s], which starts
    at offset [pos] of the input.  [op] is the input suffix at which group
    1 was opened and [cap] its value once closed. *)
Fixpoint run (r : list item) (op : jsstr) (cap : option jsstr)
         (pos : nat) (s : jsstr) : option found :=
  match r with
  | [] => Some (Found pos s cap)
  | Lit c :: r' =>
      match s with
      | a :: s' => if Ascii.eqb a c then run r' op cap (S pos) s' else None
      | [] => None
      end
  | Cls p :: r' =>
      match s with
      | a :: s' => if p a then run r' op cap (S pos) s' else None
      | [] => None
      end
  | Bol :: r' => if pos =? 0 then run r' op cap pos s else None
  | Eoi :: r' =>
      match s with
      | [] => run r' op cap pos s
      | _ :: _ => None
      end
  | Star p :: r' => greedy p (run r' op cap) pos s
  | Plus p :: r' =>
      match s with
      | a :: s' => if p a then greedy p (run r' op cap) (S pos) s' else None
      | [] => None
      end
  | PlusLazy p :: r' =>
      match s with
      | a :: s' => if p a then reluctant p (run r' op cap) (S pos) s' else None
      | [] => None
      end
  | Open :: r' => run r' s cap pos s
  | Close :: r' =>
      run r' op (Some (take (length op - length s) op)) pos s
  end.

(** The match object of [exec]. *)
Record result : Type := Result {
  index : nat;                    (* match.index *)
  lastIndex : nat;                (* match.index + match[0].length *)
  after : jsstr;                  (* the input from lastIndex on *)
  group1 : option jsstr           (* match[1] *)
}.

(** [exec] from offset [pos], where [s] is the input from [pos] on: the
    leftmost start offset at which the pattern matches. *)
Fixpoint search (r : list item) (pos : nat) (s : jsstr) : option result :=
  match run r [] None pos s with
  | Some f => Some (Result pos (f_end f) (f_rest f) (f_group f))
  | None =>
      match s with
      | [] => None
      | _ :: s' => search r (S pos) s'
      end
  end.

(** [line.match(re)] and [re.exec(line)] on a fresh expression. *)
Definition exec (r : list item) (line : jsstr) : option result :=
  search r 0 line.

(** [re.test(line)] *)
Definition test (r : list item) (line : jsstr) : bool :=
  match exec r line with Some _ => true | None => false end.

(** [while ((match = re.exec(line)) !== null)] with the [g] flag: each
    round resumes at [lastIndex] and the loop ends at the first failure.
    The results of the rounds, in order. *)
Fixpoint rounds (fuel : nat) (r : list item) (pos : nat) (s : jsstr)
  : list result :=
  match fuel with
  | 0 => []
  | S fuel' =>
      match search r pos s with
      | None => []
      | Some m => m :: rounds fuel' r (lastIndex m) (after m)
      end
  end.

Definition execAll (r : list item) (line : jsstr) : list result :=
  rounds (S (length line)) r 0 line.

(** [match && match[1]] yields a usable string. *)
Definition captured (m : option result) : option jsstr :=
  match m with
  | Some (Result _ _ _ (Some v)) => if truthy v then Some v else None
  | _ => None
  end.

(** A name spliced into the source text of a pattern, as in
    [new RegExp(`${variableName}...`)].  The source splices the name as it
    is, without escaping.  The provider passes names of the word family
    only (a capture of line 76 or 171, or a word that passed the test of
    line 98 or 366): their characters are letters, digits, [_] and [$],
    which all stand for themselves except [$], the end-of-input
    assertion.  For those names [splice] is the spliced text; a name with
    another pattern operator, which the provider never passes, is outside
    of it. *)
Definition splice (name : jsstr) : list item :=
  map (fun c => if isChar "$" c then Eoi else Lit c) name.

End RegExp.
Import RegExp.

(** ** The provider: lexical part *)

(** [/\$\{(N)\}/g] with [N = [a-zA-Z_][a-zA-Z0-9_]*] (lines 76 and 157) *)
Definition robotVarRegex : list item :=
  [Lit "$"; Lit "{"; Open; Cls isNameStart; Star isNameChar; Close; Lit "}"].

(** [/(W)\s*=/g] with [W = [a-zA-Z_$][a-zA-Z0-9_$]*] (line 171) *)
Definition assignmentRegex : list item :=
  [Open; Cls isWordStart; Star isWordChar; Close; Star isSpace; Lit "="].

(** [/^[a-zA-Z_$][a-zA-Z0-9_$]*$/] (lines 98 and 366) *)
Definition wordRegex : list item :=
  [Bol; Cls isWordStart; Star isWordChar; Eoi].

(** [new RegExp(`${variableName}\\s*=\\s*q(V)q`)] with [V = [^q]*], for
    each of the three quote characters [q] (lines 108-110 and 379-381) *)
Definition quoteTail (q : ascii) : list item :=
  [Star isSpace; Lit "="; Star isSpace; Lit q;
   Open; Star (isNot q); Close; Lit q].

Definition quoteRegex (q : ascii) (variableName : jsstr) : list item :=
  splice variableName ++ quoteTail q.

Definition dquote : ascii := "034"%char.
Definition squote : ascii := "'"%char.
Definition bquote : ascii := "`"%char.

Definition doubleQuoteRegex := quoteRegex dquote.
Definition singleQuoteRegex := quoteRegex squote.
Definition backQuoteRegex := quoteRegex bquote.

(** [new RegExp(`\\$\\{${variableName}\\}\\s+(.+?)$`)] (line 127) *)
Definition robotValueRegex (variableName : jsstr) : list item :=
  [Lit "$"; Lit "{"] ++ splice variableName ++
  [Lit "}"; Plus isSpace; Open; PlusLazy isDot; Close; Eoi].

(** [extractVariableValue] (lines 106-122 and 374-393) *)
Definition extractVariableValue (line variableName : jsstr) : option jsstr :=
  match captured (exec (doubleQuoteRegex variableName) line) with
  | Some v => Some v
  | None =>
      match captured (exec (singleQuoteRegex variableName) line) with
      | Some v => Some v
      | None => captured (exec (backQuoteRegex variableName) line)
      end
  end.

(** [extractRobotVariableValue] (lines 126-135) *)
Definition extractRobotVariableValue (line variableName : jsstr)
  : option jsstr :=
  match captured (exec (robotValueRegex variableName) line) with
  | Some v => Some (trim v)
  | None => None
  end.

(** ** Host environment *)

(** [vscode.Position] *)
Record Position : Type := {
  line : nat;
  character : nat
}.

(** [vscode.TextDocument], as far as the provider looks at it. *)
Record TextDocument : Type := {
  languageId : jsstr;
  fsPath : jsstr;                          (* document.uri.fsPath *)
  lines : list jsstr;                      (* lineAt(i).text for i < lineCount *)
  wordAt : Position -> option jsstr        (* getText(getWordRangeAtPosition(p)) *)
}.

(** One entry of [element_selectors.json]; every key is optional. *)
Record Descriptor : Type := {
  tag : option jsstr;
  text : option jsstr;
  xpath : option jsstr;
  css : option jsstr;
  photo : option jsstr
}.

(** What [JSON.parse] makes of the metadata file: a falsy value ([null],
    [false], [0], the empty string) or the documented object from names to
    descriptors with string fields. *)
Inductive json : Type :=
| JFalsy
| JTable (t : gmap jsstr Descriptor).

(** [fs], [path], [JSON] and the workspace of the editor. *)
Record Host : Type := {
  workspaceFolder : option jsstr;          (* workspaceFolders?.[0].uri.fsPath *)
  existsSync : jsstr -> bool;
  readFileSync : jsstr -> option jsstr;    (* None: the read throws *)
  JSON_parse : jsstr -> option json;       (* None: SyntaxError *)
  path_join : jsstr -> jsstr -> jsstr;
  uri_file : jsstr -> jsstr                (* vscode.Uri.file(p).toString() *)
}.

(** What a call does besides returning. *)
Inductive event : Type :=
| ReadFile (path : jsstr)                  (* fs.readFileSync(path, 'utf8') *)
| ConsoleError.                            (* console.error(...) *)

(** How a block of statements ends. *)
Inductive completion (A : Type) : Type :=
| Normal (a : A)
| Throw.
Arguments Normal {A} a.
Arguments Throw {A}.

(** ** The provider: state *)

(** The fields of [ElementHoverProvider] (lines 22-34).  [cacheTimeout] and
    [variableAssignmentCacheTimeout] are set by the constructor and never
    assigned again. *)
Record Provider : Type := {
  metadataCache : option (gmap jsstr Descriptor);   (* None: null or falsy *)
  metadataCachePath : option jsstr;
  lastCacheTime : Z;
  variableAssignmentCache : gmap jsstr jsstr;
  variableAssignmentCachePath : option jsstr;
  variableAssignmentCacheTime : Z
}.

Definition cacheTimeout : Z := 5000.
Definition variableAssignmentCacheTimeout : Z := 5000.

(** [new ElementHoverProvider()] *)
Definition newProvider : Provider := {|
  metadataCache := None;
  metadataCachePath := None;
  lastCacheTime := 0;
  variableAssignmentCache := ∅;
  variableAssignmentCachePath := None;
  variableAssignmentCacheTime := 0
|}.

Definition samePath (cached : option jsstr) (p : jsstr) : bool :=
  bool_decide (cached = Some p).

(** ** The Metadata Store Accessor *)

(** The cache test of [loadMetadata] (lines 41-43). *)
Definition metadataFresh (st : Provider) (metadataFile : jsstr) (now : Z)
  : bool :=
  match metadataCache st with
  | Some _ =>
      samePath (metadataCachePath st) metadataFile
      && (now - lastCacheTime st <? cacheTimeout)%Z
  | None => false
  end.

(** The [try] block of [loadMetadata] (lines 53-61). *)
Definition readMetadata (h : Host) (metadataFile : jsstr) (now : Z)
           (st : Provider)
  : completion (option (gmap jsstr Descriptor)) * Provider * list event :=
  match readFileSync h metadataFile with
  | None => (Throw, st, [ReadFile metadataFile])
  | Some rawMetadata =>
      match JSON_parse h rawMetadata with
      | None => (Throw, st, [ReadFile metadataFile])
      | Some parsed =>
          let metadata :=
            match parsed with JFalsy => None | JTable t => Some t end in
          (Normal metadata,
           {| metadataCache := metadata;
              metadataCachePath := Some metadataFile;
              lastCacheTime := now;
              variableAssignmentCache := variableAssignmentCache st;
              variableAssignmentCachePath := variableAssignmentCachePath st;
              variableAssignmentCacheTime := variableAssignmentCacheTime st |},
           [ReadFile metadataFile])
      end
  end.

(** [loadMetadata] (lines 37-66 and 326-355), called at time [now]. *)
Definition loadMetadata (h : Host) (metadataFile : jsstr) (now : Z)
           (st : Provider)
  : completion (option (gmap jsstr Descriptor)) * Provider * list event :=
  if metadataFresh st metadataFile now then
    (Normal (metadataCache st), st, [])
  else if negb (existsSync h metadataFile) then
    (Normal None, st, [])
  else
    match readMetadata h metadataFile now st with
    | (Normal metadata, st', evs) => (Normal metadata, st', evs)
    | (Throw, st', evs) => (Normal None, st', evs ++ [ConsoleError])
    end.

(** ** The Identifier Extractor *)

Definition robotframework : jsstr := str "robotframework".

Definition isRobot (document : TextDocument) : bool :=
  bool_decide (languageId document = robotframework).

(** [character >= varStart && character <= varEnd] (line 84) *)
Definition holdsCursor (character : nat) (m : result) : bool :=
  (index m <=? character) && (character <=? lastIndex m).

(** The loop of lines 79-87: the first round whose span holds the cursor. *)
Definition robotVariableAt (lineText : jsstr) (character : nat)
  : option jsstr :=
  match find (holdsCursor character) (execAll robotVarRegex lineText) with
  | Some m => group1 m
  | None => None
  end.

(** The validation of lines 98-102 and 366-370. *)
Definition validWord (word : jsstr) : option jsstr :=
  if test wordRegex word then Some word else None.

(** [getVariableAtPosition] (lines 69-103).  [lineAt] throws on a line the
    document does not have. *)
Definition getVariableAtPosition (document : TextDocument)
           (position : Position) : completion (option jsstr) :=
  match lines document !! line position with
  | None => Throw
  | Some lineText =>
      if isRobot document then
        Normal (robotVariableAt lineText (character position))
      else
        match wordAt document position with
        | None => Normal None
        | Some word => Normal (validWord word)
        end
  end.

(** ** The Document Assignment Index *)

(** The body of the two inner loops (lines 160-167 and 174-181) for one
    round [m]; [extract] is the extractor of the language family.  Group 1
    is not optional, so [match[1]] is always a string. *)
Definition remember (extract : jsstr -> jsstr -> option jsstr)
           (lineText : jsstr) (cache : gmap jsstr jsstr) (m : result)
  : gmap jsstr jsstr :=
  match group1 m with
  | None => cache
  | Some varName =>
      let unseen :=
        match js_get cache varName with
        | Own v => negb (truthy v)
        | Inherited => false
        | Undefined => true
        end in
      if unseen then
        match extract lineText varName with
        | Some value =>
            if truthy value then <[varName := value]> cache else cache
        | None => cache
        end
      else cache
  end.

(** One round of the outer loop (lines 153-183). *)
Definition scanLine (robot : bool) (cache : gmap jsstr jsstr)
           (lineText : jsstr) : gmap jsstr jsstr :=
  if robot then
    fold_left (remember extractRobotVariableValue lineText)
              (execAll robotVarRegex lineText) cache
  else
    fold_left (remember extractVariableValue lineText)
              (execAll assignmentRegex lineText) cache.

(** The rebuild of lines 149-184. *)
Definition scanDocument (document : TextDocument) : gmap jsstr jsstr :=
  fold_left (scanLine (isRobot document)) (lines document) ∅.

Definition assignmentsFresh (st : Provider) (document : TextDocument)
           (now : Z) : bool :=
  samePath (variableAssignmentCachePath st) (fsPath document)
  && (now - variableAssignmentCacheTime st <? variableAssignmentCacheTimeout)%Z.

(** [buildVariableAssignmentCache] (lines 138-191), called at time [now].
    The cache object itself is always truthy. *)
Definition buildVariableAssignmentCache (document : TextDocument) (now : Z)
           (st : Provider) : gmap jsstr jsstr * Provider :=
  if assignmentsFresh st document now then
    (variableAssignmentCache st, st)
  else
    let cache := scanDocument document in
    (cache,
     {| metadataCache := metadataCache st;
        metadataCachePath := metadataCachePath st;
        lastCacheTime := lastCacheTime st;
        variableAssignmentCache := cache;
        variableAssignmentCachePath := Some (fsPath document);
        variableAssignmentCacheTime := now |}).

(** What a resolved value can be: a string of the document, or a member
    of [Object.prototype]. *)
Inductive jsval : Type :=
| VString (s : jsstr)
| VObject.

(** [cache[variableName] || null] *)
Definition lookupAssignment (cache : gmap jsstr jsstr) (variableName : jsstr)
  : option jsval :=
  match js_get cache variableName with
  | Own v => if truthy v then Some (VString v) else None
  | Inherited => Some VObject
  | Undefined => None
  end.

(** [findVariableAssignmentEfficient] (lines 194-197) *)
Definition findVariableAssignmentEfficient (document : TextDocument)
           (variableName : jsstr) (now : Z) (st : Provider)
  : option jsval * Provider :=
  let '(cache, st') := buildVariableAssignmentCache document now st in
  (lookupAssignment cache variableName, st').

(** ** The Resolution Orchestrator *)

(** The calls of [markdown.appendMarkdown], in order. *)
Inductive block : Type :=
| Image (uri : jsstr)
| TagLine (tagText : jsstr)
| TextLine (t : jsstr)
| XPathBlock (x : jsstr)
| CssBlock (c : jsstr).

(** [vscode.Hover] over the markdown built from these blocks. *)
Definition Hover : Type := list block.

(** [element.f] for the value [element] read from the table: members of
    [Object.prototype] have none of the descriptor fields. *)
Definition field (f : Descriptor -> option jsstr)
           (element : property Descriptor) : option jsstr :=
  match element with
  | Own d => f d
  | _ => None
  end.

(** [f && f === actualValue] *)
Definition fieldMatches (f : option jsstr) (actualValue : jsval) : bool :=
  match f, actualValue with
  | Some s, VString a => truthy s && bool_decide (s = a)
  | _, _ => false
  end.

(** Lines 242-244 and 462-464. *)
Definition hasMatchingValue (element : property Descriptor)
           (actualValue : jsval) : bool :=
  fieldMatches (field xpath element) actualValue
  || fieldMatches (field css element) actualValue.

(** [`${element.tag}`]: a missing tag prints as [undefined]. *)
Definition tagText (element : property Descriptor) : jsstr :=
  match field tag element with
  | Some t => t
  | None => str "undefined"
  end.

Definition optionalBlock (mk : jsstr -> block) (f : option jsstr)
  : list block :=
  match f with
  | Some s => if truthy s then [mk s] else []
  | None => []
  end.

(** Lines 257-278 and 477-499. *)
Definition hoverContent (h : Host) (photoPath : jsstr)
           (element : property Descriptor) : Hover :=
  [Image (uri_file h photoPath); TagLine (tagText element)]
  ++ optionalBlock TextLine (field text element)
  ++ optionalBlock XPathBlock (field xpath element)
  ++ optionalBlock CssBlock (field css element).

Definition photosDirOf (h : Host) (root : jsstr) : jsstr :=
  path_join h root (str ".photos").

Definition metadataFileOf (h : Host) (root : jsstr) : jsstr :=
  path_join h (photosDirOf h root) (str "element_selectors.json").

(** Lines 241-278 and 461-499, shared by both versions: from the resolved
    value to the hover.  [path.join] throws on a [photo] that is not a
    string, and the [catch] of [provideHover] logs it. *)
Definition present (h : Host) (root : jsstr)
           (element : property Descriptor) (actualValue : jsval)
  : option Hover * list event :=
  if negb (hasMatchingValue element actualValue) then (None, [])
  else
    match field photo element with
    | None => (None, [ConsoleError])
    | Some photoName =>
        let photoPath := path_join h (photosDirOf h root) photoName in
        if negb (existsSync h photoPath) then (None, [])
        else (Some (hoverContent h photoPath element), [])
    end.

(** [provideHover] (lines 200-284).  [nowMeta] and [nowIndex] are the two
    readings of [Date.now()], in [loadMetadata] and in
    [buildVariableAssignmentCache]. *)
Definition provideHover (h : Host) (document : TextDocument)
           (position : Position) (nowMeta nowIndex : Z) (st : Provider)
  : option Hover * Provider * list event :=
  match getVariableAtPosition document position with
  | Throw => (None, st, [ConsoleError])
  | Normal None => (None, st, [])
  | Normal (Some variableName) =>
      match workspaceFolder h with
      | None => (None, st, [])
      | Some root =>
          let metadataFile := metadataFileOf h root in
          if negb (existsSync h metadataFile) then (None, st, [])
          else
            match loadMetadata h metadataFile nowMeta st with
            | (Throw, st1, evs) => (None, st1, evs ++ [ConsoleError])
            | (Normal None, st1, evs) => (None, st1, evs)
            | (Normal (Some metadata), st1, evs) =>
                match js_get metadata variableName with
                | Undefined => (None, st1, evs)
                | element =>
                    match
                      findVariableAssignmentEfficient
                        document variableName nowIndex st1
                    with
                    | (None, st2) => (None, st2, evs)
                    | (Some actualValue, st2) =>
                        let '(hover, evs') :=
                          present h root element actualValue in
                        (hover, st2, evs ++ evs')
                    end
                end
            end
      end
  end.

(** ** The second version of the provider (lines 296-515) *)
Module Legacy.

(** [getVariableAtPosition] (lines 358-371) *)
Definition getVariableAtPosition (document : TextDocument)
           (position : Position) : option jsstr :=
  match wordAt document position with
  | None => None
  | Some word => validWord word
  end.

(** [findVariableAssignment] (lines 396-410): the first line, from the
    top, on which the extractor yields a value. *)
Fixpoint firstAssignment (ls : list jsstr) (variableName : jsstr)
  : option jsstr :=
  match ls with
  | [] => None
  | lineText :: ls' =>
      match extractVariableValue lineText variableName with
      | Some value => if truthy value then Some value
                      else firstAssignment ls' variableName
      | None => firstAssignment ls' variableName
      end
  end.

Definition findVariableAssignment (document : TextDocument)
           (variableName : jsstr) : option jsstr :=
  firstAssignment (lines document) variableName.

(** Lines 448-454: the cursor line first, then the whole document.
    [lineAt] throws on a line the document does not have. *)
Definition resolveValue (document : TextDocument) (position : Position)
           (variableName : jsstr) : completion (option jsstr) :=
  match lines document !! line position with
  | None => Throw
  | Some lineText =>
      match extractVariableValue lineText variableName with
      | Some v => if truthy v then Normal (Some v)
                  else Normal (findVariableAssignment document variableName)
      | None => Normal (findVariableAssignment document variableName)
      end
  end.

(** [provideHover] (lines 413-505) *)
Definition provideHover (h : Host) (document : TextDocument)
           (position : Position) (nowMeta : Z) (st : Provider)
  : option Hover * Provider * list event :=
  match getVariableAtPosition document position with
  | None => (None, st, [])
  | Some variableName =>
      match workspaceFolder h with
      | None => (None, st, [])
      | Some root =>
          let metadataFile := metadataFileOf h root in
          if negb (existsSync h metadataFile) then (None, st, [])
          else
            match loadMetadata h metadataFile nowMeta st with
            | (Throw, st1, evs) => (None, st1, evs ++ [ConsoleError])
            | (Normal None, st1, evs) => (None, st1, evs)
            | (Normal (Some metadata), st1, evs) =>
                match js_get metadata variableName with
                | Undefined => (None, st1, evs)
                | element =>
                    match resolveValue document position variableName with
                    | Throw => (None, st1, evs ++ [ConsoleError])
                    | Normal None => (None, st1, evs)
                    | Normal (Some actualValue) =>
                        let '(hover, evs') :=
                          present h root element (VString actualValue) in
                        (hover, st1, evs ++ evs')
                    end
                end
            end
      end
  end.

End Legacy.

(** ** Vocabulary of the statements *)

(** The longest prefix of [s] inside the class [p], and what follows it. *)
Fixpoint leading (p : ascii -> bool) (s : jsstr) : jsstr :=
  match s with
  | c :: s' => if p c then c :: leading p s' else []
  | [] => []
  end.

Fixpoint beyond (p : ascii -> bool) (s : jsstr) : jsstr :=
  match s with
  | c :: s' => if p c then beyond p s' else s
  | [] => []
  end.

(** A name of the bracket-delimited family: [[a-zA-Z_][a-zA-Z0-9_]*]. *)
Definition isName (name : jsstr) : bool :=
  match name with
  | c :: cs => isNameStart c && forallb isNameChar cs
  | [] => false
  end.

(** A name of the word family: [[a-zA-Z_$][a-zA-Z0-9_$]*]. *)
Definition isWord (name : jsstr) : bool :=
  match name with
  | c :: cs => isWordStart c && forallb isWordChar cs
  | [] => false
  end.

(** [${name}] stands at offset [i] of the line. *)
Definition occurrence (lineText : jsstr) (i : nat) (name : jsstr) : Prop :=
  isName name = true /\
  exists pre post,
    lineText = pre ++ str "${" ++ name ++ str "}" ++ post /\ length pre = i.

(** The cursor offset [character] lies in the span of the occurrence at
    [i], braces included: from the offset in front of [$] to the offset
    behind the closing brace. *)
Definition inSpan (i : nat) (name : jsstr) (character : nat) : Prop :=
  i <= character <= i + length (str "${" ++ name ++ str "}").

(** The three quote characters of [extractVariableValue]. *)
Definition isQuote (q : ascii) : Prop :=
  q = dquote \/ q = squote \/ q = bquote.

(** What one of the three patterns captures on a line, if usable. *)
Definition capturedBy (q : ascii) (line variableName : jsstr)
  : option jsstr :=
  captured (exec (quoteRegex q variableName) line).

(** [name], white space, [=], white space and the literal [v] between two
    quotes [q], with [pre] in front and [post] behind. *)
Definition assignment (pre name ws1 ws2 : jsstr) (q : ascii)
           (v post : jsstr) : jsstr :=
  pre ++ name ++ ws1 ++ "="%char :: ws2 ++ q :: v ++ q :: post.

(** At offset [i] of the line stands an assignment of the literal [v],
    between quotes [q], to [name]. *)
Definition assignsAt (q : ascii) (line name : jsstr) (i : nat) (v : jsstr)
  : Prop :=
  exists pre ws1 ws2 post,
    line = assignment pre name ws1 ws2 q v post /\ length pre = i
    /\ forallb isSpace ws1 = true /\ forallb isSpace ws2 = true
    /\ q ∉ v.

(** The names the scan of a line lists: group 1 of every round. *)
Definition listedNames (robot : bool) (lineText : jsstr)
  : list (option jsstr) :=
  map group1
      (execAll (if robot then robotVarRegex else assignmentRegex) lineText).

Definition extractor (robot : bool) : jsstr -> jsstr -> option jsstr :=
  if robot then extractRobotVariableValue else extractVariableValue.

(** The value of the first line, from the top, that lists [name] and on
    which the extractor of the family yields a non-empty value. *)
Fixpoint firstRecorded (robot : bool) (ls : list jsstr) (name : jsstr)
  : option jsstr :=
  match ls with
  | [] => None
  | lineText :: ls' =>
      if bool_decide (Some name ∈ listedNames robot lineText) then
        match extractor robot lineText name with
        | Some v => if truthy v then Some v else firstRecorded robot ls' name
        | None => firstRecorded robot ls' name
        end
      else firstRecorded robot ls' name
  end.

(** [if (value)] on the result of an extractor. *)
Definition usable (value : option jsstr) : option jsstr :=
  match value with
  | Some v => if truthy v then Some v else None
  | None => None
  end.

(** Every recorded value is a non-empty string. *)
Definition allTruthy (cache : gmap jsstr jsstr) : Prop :=
  forall k v, cache !! k = Some v -> truthy v = true.

(** A pattern that cannot match the empty string. *)
Definition progressing (r : list item) : Prop :=
  forall pos s f, run r [] None pos s = Some f -> pos < f_end f.

(** Successive calls of [loadMetadata] for one path, at the given times. *)
Fixpoint loadMetadataAt (h : Host) (metadataFile : jsstr) (times : list Z)
         (st : Provider)
  : list (completion (option (gmap jsstr Descriptor))) * Provider
    * list event :=
  match times with
  | [] => ([], st, [])
  | now :: times' =>
      let '(r, st1, evs1) := loadMetadata h metadataFile now st in
      let '(rs, st2, evs2) := loadMetadataAt h metadataFile times' st1 in
      (r :: rs, st2, evs1 ++ evs2)
  end.

(** ** Sample inputs *)

Definition documentOf (language path : string) (ls : list string)
           (word : option string) : TextDocument := {|
  languageId := str language;
  fsPath := str path;
  lines := map str ls;
  wordAt := fun _ => option_map str word
|}.

Definition at_ (l c : nat) : Position := {| line := l; character := c |}.

Definition robotSample : TextDocument :=
  documentOf "robotframework" "/w/login.robot"
             ["Click    ${A}${B_1}  ${${C}}"] None.

(** A Python file that assigns a variable called [constructor]. *)
Definition prototypeSample : TextDocument :=
  documentOf "python" "/w/page.py" ["constructor = '//form'"]
             (Some "constructor").

(** A Python file with two assignments to [x]. *)
Definition twiceSample : TextDocument :=
  documentOf "python" "/w/page.py" ["y = 1"; "x = 'a'"; "x = 'b'"] (Some "x").

(** A Python file that assigns [max] only. *)
Definition longerSample : TextDocument :=
  documentOf "python" "/w/page.py" ["max = 'v'"] (Some "x").

(** [q], the text [v] and [q] again. *)
Definition quoted (q : ascii) (v : string) : jsstr := q :: str v ++ [q].

(** [x = "z"; x = "abc"] *)
Definition twoLiterals : jsstr :=
  str "x = " ++ quoted dquote "z" ++ str "; x = " ++ quoted dquote "abc".

(** [max = "v"] *)
Definition longerName : jsstr := str "max = " ++ quoted dquote "v".

(** The descriptor of the button: a tag, an XPath and a photo. *)
Definition btnDescriptor : Descriptor := {|
  tag := Some (str "button");
  text := None;
  xpath := Some (str "//button[1]");
  css := None;
  photo := Some (str "btn.png")
|}.

Definition btnTable : gmap jsstr Descriptor :=
  {[ str "BTN" := btnDescriptor ]}.

(** The text of a metadata file with this one entry. *)
Definition btnJson : jsstr :=
  str "{" ++ quoted dquote "BTN" ++ str ":{"
  ++ quoted dquote "tag" ++ str ":" ++ quoted dquote "button" ++ str ","
  ++ quoted dquote "xpath" ++ str ":" ++ quoted dquote "//button[1]"
  ++ str ","
  ++ quoted dquote "photo" ++ str ":" ++ quoted dquote "btn.png"
  ++ str "}}".

Definition samplePath : jsstr := str "/w/.photos/element_selectors.json".

(** A workspace [/w] whose [.photos] directory holds the given files; the
    metadata file has the given text, and [btnJson] is the one text the
    sample parser understands. *)
Definition hostWith (files : list jsstr) (metadataText : jsstr) : Host := {|
  workspaceFolder := Some (str "/w");
  existsSync := fun p => bool_decide (p ∈ files);
  readFileSync := fun p =>
    if bool_decide (p = samplePath) then Some metadataText else None;
  JSON_parse := fun raw =>
    if bool_decide (raw = btnJson) then Some (JTable btnTable) else None;
  path_join := fun a b => a ++ "/"%char :: b;
  uri_file := fun p => str "file://" ++ p
|}.

Definition sampleHost : Host :=
  hostWith [samplePath; str "/w/.photos/btn.png"] btnJson.

(** The same workspace after the metadata file has been deleted. *)
Definition emptiedHost : Host := hostWith [] btnJson.

(** The same workspace with a metadata file that is not JSON. *)
Definition brokenHost : Host := hostWith [samplePath] (str "{BTN:").

(** A provider that loaded [btnTable] from [samplePath] at time 1000. *)
Definition loadedProvider : Provider := {|
  metadataCache := Some btnTable;
  metadataCachePath := Some samplePath;
  lastCacheTime := 1000;
  variableAssignmentCache := ∅;
  variableAssignmentCachePath := None;
  variableAssignmentCacheTime := 0
|}.

(** A Python file that assigns the XPath of the button to [BTN]. *)
Definition btnLine : jsstr := str "BTN = " ++ quoted dquote "//button[1]".

Definition btnSample : TextDocument := {|
  languageId := str "python";
  fsPath := str "/w/page.py";
  lines := [str "import os"; btnLine; str "click(BTN)"];
  wordAt := fun _ => Some (str "BTN")
|}.

(** The same file with another selector. *)
Definition otherSample : TextDocument := {|
  languageId := str "python";
  fsPath := str "/w/page.py";
  lines := [str "BTN = '//a'"];
  wordAt := fun _ => Some (str "BTN")
|}.

(** The hover, the state and the events of a call. *)
Definition hoverOf (r : option Hover * Provider * list event)
  : option Hover := fst (fst r).

Definition stateOf (r : option Hover * Provider * list event)
  : Provider := snd (fst r).

(** ** Further vocabulary and samples *)

(** The text [${name}]. *)
Definition bracketed (name : jsstr) : jsstr := str "${" ++ name ++ str "}".

(** A Robot Framework file with a variable table. *)
Definition robotTable : TextDocument :=
  documentOf "robotframework" "/w/login.robot"
             ["*** Variables ***"; "${BTN}    //button[1]  ";
              "${BTN}    //a"] None.

(** A provider whose index was built from [twiceSample] at time 1000. *)
Definition indexedProvider : Provider :=
  snd (buildVariableAssignmentCache twiceSample 1000 newProvider).

(** The same path as [twiceSample] after an edit of its first assignment. *)
Definition editedSample : TextDocument :=
  documentOf "python" "/w/page.py" ["y = 1"; "x = 'edited'"] (Some "x").

(** A descriptor that matches by its XPath but names no photo. *)
Definition noPhotoDescriptor : Descriptor := {|
  tag := Some (str "a");
  text := None;
  xpath := Some (str "//a");
  css := None;
  photo := None
|}.

(** A workspace whose table has the entry without a photo, whatever the
    text of its metadata file. *)
Definition noPhotoHost : Host := {|
  workspaceFolder := Some (str "/w");
  existsSync := fun p => bool_decide (p = samplePath);
  readFileSync := fun _ => Some (str "{}");
  JSON_parse := fun _ => Some (JTable {[ str "BTN" := noPhotoDescriptor ]});
  path_join := fun a b => a ++ "/"%char :: b;
  uri_file := fun p => str "file://" ++ p
|}.


(** A JavaScript file that declares [BTN] with [const]. *)
Definition constLine : jsstr := str "const " ++ btnLine ++ str ";".

Definition constSample : TextDocument := {|
  languageId := str "javascript";
  fsPath := str "/w/page.js";
  lines := [str "// the page"; constLine; str "click(BTN);"];
  wordAt := fun _ => Some (str "BTN")
|}.

(** [btnSample] with another assignment to [BTN] on the line above. *)
Definition shadowedSample : TextDocument := {|
  languageId := str "python";
  fsPath := str "/w/page.py";
  lines := [str "BTN = '//a'"; btnLine; str "click(BTN)"];
  wordAt := fun _ => Some (str "BTN")
|}.

(** A file in which the assignment is the tail of one to [myBTN]. *)
Definition gluedSample : TextDocument := {|
  languageId := str "python";
  fsPath := str "/w/page.py";
  lines := [str "my" ++ btnLine; str "click(BTN)"];
  wordAt := fun _ => Some (str "BTN")
|}.

(** A file whose line assigns the empty literal to [BTN] first. *)
Definition emptyFirstSample : TextDocument := {|
  languageId := str "python";
  fsPath := str "/w/page.py";
  lines := [str "BTN = " ++ [dquote; dquote] ++ str "; " ++ btnLine;
            str "click(BTN)"];
  wordAt := fun _ => Some (str "BTN")
|}.

(** A Robot Framework file with the line of [btnSample]. *)
Definition robotBtnSample : TextDocument := {|
  languageId := robotframework;
  fsPath := str "/w/page.robot";
  lines := [btnLine];
  wordAt := fun _ => Some (str "BTN")
|}.

(** [btnSample] with the cursor on [click]. *)
Definition clickSample : TextDocument := {|
  languageId := str "python";
  fsPath := str "/w/page.py";
  lines := [str "import os"; btnLine; str "click(BTN)"];
  wordAt := fun _ => Some (str "click")
|}.

(** A provider whose index was built at time 15 from the file at the path
    of [btnSample], when that file held [longerSample]. *)
Definition staleProvider : Provider :=
  snd (buildVariableAssignmentCache longerSample 15 newProvider).

(** * Properties *)

(** ** Character classes and prefixes *)

(** A character that is not among those of a given text. *)
Ltac absent :=
  let H := fresh in
  intros H; vm_compute in H;
  repeat (apply elem_of_cons in H as [H|H]; [discriminate H|]);
  now apply elem_of_nil in H.

Lemma isChar_true (d c : ascii) : isChar d c = true <-> c = d.
Proof. unfold isChar. apply Ascii.eqb_eq. Qed.

Lemma isNot_false (q c : ascii) : isNot q c = false <-> c = q.
Proof.
  unfold isNot. rewrite negb_false_iff. apply isChar_true.
Qed.

Lemma isNot_true (q c : ascii) : isNot q c = true <-> c <> q.
Proof.
  unfold isNot, isChar. rewrite negb_true_iff. apply Ascii.eqb_neq.
Qed.

Lemma leading_beyond (p : ascii -> bool) (s : jsstr) :
  s = leading p s ++ beyond p s.
Proof.
  induction s as [|c s IH]; simpl; [reflexivity|].
  destruct (p c); simpl; [now f_equal | reflexivity].
Qed.

Lemma leading_all (p : ascii -> bool) (s : jsstr) :
  forallb p (leading p s) = true.
Proof.
  induction s as [|c s IH]; simpl; [reflexivity|].
  destruct (p c) eqn:E; simpl; [now rewrite E | reflexivity].
Qed.

Lemma beyond_head (p : ascii -> bool) (s t : jsstr) (c : ascii) :
  beyond p s = c :: t -> p c = false.
Proof.
  induction s as [|a s IH]; simpl; [discriminate|].
  destruct (p a) eqn:E; [exact IH|]. intros [= -> _]. exact E.
Qed.

Lemma leading_app (p : ascii -> bool) (u t : jsstr) (c : ascii) :
  forallb p u = true -> p c = false ->
  leading p (u ++ c :: t) = u /\ beyond p (u ++ c :: t) = c :: t.
Proof.
  intros Hu Hc. induction u as [|a u IH]; simpl in *.
  - now rewrite Hc.
  - apply andb_true_iff in Hu as [Ha Hu]. rewrite Ha.
    destruct (IH Hu) as [-> ->]. now split.
Qed.

(** ** The matcher *)

Module RegExpFacts.

(** A greedy class that the rest of the pattern cannot start with takes
    its longest run and never gives a character back. *)
Lemma greedy_commit {A} (p : ascii -> bool)
      (k : nat -> jsstr -> option A) :
  (forall pos c s, p c = true -> k pos (c :: s) = None) ->
  forall pos s,
    greedy p k pos s = k (pos + length (leading p s)) (beyond p s).
Proof.
  intros Hk pos s. revert pos.
  induction s as [|c s IH]; intros pos; simpl.
  - now rewrite Nat.add_0_r.
  - destruct (p c) eqn:E; simpl.
    + rewrite IH, <- Nat.add_succ_comm.
      destruct (k _ _) eqn:Ek; [reflexivity|]. now apply Hk.
    + now rewrite Nat.add_0_r.
Qed.

(** Both quantifiers hand the continuation a suffix of their input. *)
Lemma greedy_inv {A} (p : ascii -> bool) (k : nat -> jsstr -> option A)
      (pos : nat) (s : jsstr) (r : A) :
  greedy p k pos s = Some r ->
  exists u t, s = u ++ t /\ forallb p u = true
              /\ k (pos + length u) t = Some r.
Proof.
  revert pos. induction s as [|c s IH]; intros pos; simpl.
  - intros H. exists [], []. simpl. now rewrite Nat.add_0_r.
  - assert (Hhere : k pos (c :: s) = Some r ->
                    exists u t, c :: s = u ++ t /\ forallb p u = true
                                /\ k (pos + length u) t = Some r).
    { intros H. exists [], (c :: s). simpl. now rewrite Nat.add_0_r. }
    destruct (p c) eqn:E; [|exact Hhere].
    destruct (greedy p k (S pos) s) eqn:G; [|exact Hhere].
    intros [= ->]. destruct (IH _ G) as (u & t & -> & Hu & Hr).
    exists (c :: u), t. simpl. rewrite E, Hu.
    now rewrite <- Nat.add_succ_comm.
Qed.

Lemma reluctant_inv {A} (p : ascii -> bool)
      (k : nat -> jsstr -> option A) (pos : nat) (s : jsstr) (r : A) :
  reluctant p k pos s = Some r ->
  exists u t, s = u ++ t /\ forallb p u = true
              /\ k (pos + length u) t = Some r.
Proof.
  revert pos. induction s as [|c s IH]; intros pos; simpl.
  - destruct (k pos []) eqn:Ek; [|discriminate].
    intros [= ->]. exists [], []. simpl. now rewrite Nat.add_0_r.
  - destruct (k pos (c :: s)) eqn:Ek.
    + intros [= ->]. exists [], (c :: s). simpl. now rewrite Nat.add_0_r.
    + destruct (p c) eqn:E; [|discriminate].
      intros G. destruct (IH _ G) as (u & t & -> & Hu & Hr).
      exists (c :: u), t. simpl. rewrite E, Hu.
      now rewrite <- Nat.add_succ_comm.
Qed.

(** A match consumes a prefix of the input, and the end offset counts
    its characters. *)
Lemma run_consumes (r : list item) :
  forall op cap pos s f,
    run r op cap pos s = Some f ->
    exists u, s = u ++ f_rest f /\ f_end f = pos + length u.
Proof.
  induction r as [|i r IH]; intros op cap pos s f; simpl.
  - intros [= <-]. exists []. simpl. now rewrite Nat.add_0_r.
  - destruct i.
    + destruct s as [|a s]; [discriminate|].
      destruct (Ascii.eqb a c); [|discriminate].
      intros H. destruct (IH _ _ _ _ _ H) as (u & -> & ->).
      exists (a :: u). simpl. split; [reflexivity | lia].
    + destruct s as [|a s]; [discriminate|].
      destruct (p a); [|discriminate].
      intros H. destruct (IH _ _ _ _ _ H) as (u & -> & ->).
      exists (a :: u). simpl. split; [reflexivity | lia].
    + destruct (pos =? 0); [apply IH | discriminate].
    + destruct s; [apply IH | discriminate].
    + intros H. apply greedy_inv in H as (u & t & -> & _ & H).
      destruct (IH _ _ _ _ _ H) as (u' & -> & ->).
      exists (u ++ u'). rewrite <- app_assoc, length_app.
      split; [reflexivity | lia].
    + destruct s as [|a s]; [discriminate|].
      destruct (p a); [|discriminate].
      intros H. apply greedy_inv in H as (u & t & -> & _ & H).
      destruct (IH _ _ _ _ _ H) as (u' & -> & ->).
      exists (a :: u ++ u'). simpl. rewrite <- app_assoc, length_app.
      split; [reflexivity | lia].
    + destruct s as [|a s]; [discriminate|].
      destruct (p a); [|discriminate].
      intros H. apply reluctant_inv in H as (u & t & -> & _ & H).
      destruct (IH _ _ _ _ _ H) as (u' & -> & ->).
      exists (a :: u ++ u'). simpl. rewrite <- app_assoc, length_app.
      split; [reflexivity | lia].
    + apply IH.
    + apply IH.
Qed.

(** Literal characters must be there. *)
Lemma run_literals (x : jsstr) (r : list item) :
  forall op cap pos s,
    run (map Lit x ++ r) op cap pos (x ++ s)
    = run r op cap (pos + length x) s.
Proof.
  induction x as [|c x IH]; intros op cap pos s; simpl.
  - now rewrite Nat.add_0_r.
  - rewrite Ascii.eqb_refl, IH. now rewrite <- Nat.add_succ_comm.
Qed.

Lemma run_literals_inv (x : jsstr) (r : list item) :
  forall op cap pos s f,
    run (map Lit x ++ r) op cap pos s = Some f ->
    exists s', s = x ++ s'.
Proof.
  induction x as [|c x IH]; intros op cap pos s f; simpl.
  - intros _. now exists s.
  - destruct s as [|a s]; [discriminate|].
    destruct (Ascii.eqb a c) eqn:E; [|discriminate].
    apply Ascii.eqb_eq in E as ->. intros H.
    destruct (IH _ _ _ _ _ H) as [s' ->]. now exists s'.
Qed.

(** [class* c] for a character [c] outside the class. *)
Lemma run_star_lit (p : ascii -> bool) (c : ascii) (r : list item) :
  p c = false ->
  forall op cap pos s,
    run (Star p :: Lit c :: r) op cap pos s =
    match beyond p s with
    | a :: t =>
        if Ascii.eqb a c
        then run r op cap (S (pos + length (leading p s))) t
        else None
    | [] => None
    end.
Proof.
  intros Hc op cap pos s.
  change (run (Star p :: Lit c :: r) op cap pos s)
    with (greedy p (run (Lit c :: r) op cap) pos s).
  rewrite greedy_commit; [reflexivity|].
  intros pos' a s' Ha. simpl.
  destruct (Ascii.eqb a c) eqn:E; [|reflexivity].
  apply Ascii.eqb_eq in E. congruence.
Qed.

(** [(... class* ) c]: the same with the group closing in between. *)
Lemma run_star_close_lit (p : ascii -> bool) (c : ascii) (r : list item) :
  p c = false ->
  forall op cap pos s,
    run (Star p :: Close :: Lit c :: r) op cap pos s =
    match beyond p s with
    | a :: t =>
        if Ascii.eqb a c
        then run r op (Some (take (length op - length (a :: t)) op))
                 (S (pos + length (leading p s))) t
        else None
    | [] => None
    end.
Proof.
  intros Hc op cap pos s.
  change (run (Star p :: Close :: Lit c :: r) op cap pos s)
    with (greedy p (run (Close :: Lit c :: r) op cap) pos s).
  rewrite greedy_commit; [now destruct (beyond p s)|].
  intros pos' a s' Ha. simpl.
  destruct (Ascii.eqb a c) eqn:E; [|reflexivity].
  apply Ascii.eqb_eq in E. congruence.
Qed.

End RegExpFacts.
Import RegExpFacts.

(** ** Searching a line *)

Module SearchFacts.

(** [exec] reports the leftmost offset at which the pattern matches. *)
Lemma search_Some (r : list item) :
  forall s pos m,
    search r pos s = Some m ->
    exists k,
      k <= length s /\ index m = pos + k
      /\ run r [] None (pos + k) (drop k s)
         = Some (Found (lastIndex m) (after m) (group1 m))
      /\ forall j, j < k -> run r [] None (pos + j) (drop j s) = None.
Proof.
  induction s as [|c s IH]; intros pos m; simpl.
  - destruct (run r [] None pos []) as [f|] eqn:E; [|discriminate].
    intros [= <-]. exists 0. simpl. rewrite Nat.add_0_r.
    repeat split; try lia. now destruct f.
  - destruct (run r [] None pos (c :: s)) as [f|] eqn:E.
    + intros [= <-]. exists 0. simpl. rewrite Nat.add_0_r.
      repeat split; try lia. now destruct f.
    + intros H. destruct (IH _ _ H) as (k & Hk & Hi & Hr & Hj).
      exists (S k). simpl. rewrite <- Nat.add_succ_comm.
      repeat split; [lia | assumption | assumption |].
      intros [|j] Hlt; simpl.
      * now rewrite Nat.add_0_r.
      * rewrite <- Nat.add_succ_comm. apply Hj. lia.
Qed.

Lemma search_None (r : list item) :
  forall s pos,
    search r pos s = None ->
    forall j, j <= length s -> run r [] None (pos + j) (drop j s) = None.
Proof.
  induction s as [|c s IH]; intros pos; simpl.
  - destruct (run r [] None pos []) eqn:E; [discriminate|].
    intros _ j Hj. replace j with 0 by lia. simpl.
    now rewrite Nat.add_0_r.
  - destruct (run r [] None pos (c :: s)) eqn:E; [discriminate|].
    intros H [|j] Hj; simpl.
    + now rewrite Nat.add_0_r.
    + rewrite <- Nat.add_succ_comm. apply (IH _ H). lia.
Qed.

(** Where the pattern cannot start, the search moves on. *)
Lemma search_skip (r : list item) (pre : jsstr) :
  forall pos t,
    (forall j, j < length pre ->
               run r [] None (pos + j) (drop j (pre ++ t)) = None) ->
    search r pos (pre ++ t) = search r (pos + length pre) t.
Proof.
  induction pre as [|c pre IH]; intros pos t H; simpl.
  - now rewrite Nat.add_0_r.
  - assert (H0 := H 0 ltac:(simpl; lia)). simpl in H0.
    rewrite Nat.add_0_r in H0.
    destruct t as [|d t]; simpl in *; rewrite H0;
      rewrite <- Nat.add_succ_comm; apply IH;
      intros j Hj; specialize (H (S j) ltac:(lia));
      simpl in H; now rewrite <- Nat.add_succ_comm in H.
Qed.

Lemma search_here (r : list item) (pos : nat) (s : jsstr) (f : found) :
  run r [] None pos s = Some f ->
  search r pos s = Some (Result pos (f_end f) (f_rest f) (f_group f)).
Proof. intros H. destruct s; simpl; now rewrite H. Qed.

(** The first offset at which the pattern matches is the one reported. *)
Lemma search_first (r : list item) (s : jsstr) (pos k : nat) (f : found) :
  k <= length s ->
  run r [] None (pos + k) (drop k s) = Some f ->
  (forall j, j < k -> run r [] None (pos + j) (drop j s) = None) ->
  search r pos s
  = Some (Result (pos + k) (f_end f) (f_rest f) (f_group f)).
Proof.
  intros Hk Hrun Hearly.
  rewrite <- (take_drop k s) at 1.
  rewrite search_skip; rewrite length_take, Nat.min_l by assumption.
  - now apply search_here.
  - intros j Hj. rewrite take_drop. now apply Hearly.
Qed.

Lemma search_shrinks (r : list item) (s : jsstr) (pos : nat)
      (m : result) :
  progressing r -> search r pos s = Some m ->
  length (after m) < length s.
Proof.
  intros Hp H. apply search_Some in H as (k & Hk & Hi & Hr & _).
  pose proof (Hp _ _ _ Hr) as Hlt.
  apply run_consumes in Hr as (u & Hu & He). simpl in *.
  assert (length (drop k s) = length u + length (after m))
    by now rewrite Hu, length_app.
  rewrite length_drop in *. lia.
Qed.

(** The loop over [exec] stops because [exec] fails, not for want of
    fuel: more fuel than the line is long changes nothing. *)
Lemma rounds_enough (r : list item) :
  progressing r ->
  forall fuel n pos s,
    length s < fuel -> rounds (fuel + n) r pos s = rounds fuel r pos s.
Proof.
  intros Hp. induction fuel as [|fuel IH]; intros n pos s Hs; [lia|].
  simpl. destruct (search r pos s) as [m|] eqn:E; [|reflexivity].
  f_equal. apply IH. pose proof (search_shrinks _ _ _ _ Hp E). lia.
Qed.

Lemma progress_Lit (c : ascii) (r : list item) op cap pos s f :
  run (Lit c :: r) op cap pos s = Some f -> pos < f_end f.
Proof.
  simpl. destruct s as [|a s]; [discriminate|].
  destruct (Ascii.eqb a c); [|discriminate].
  intros H. apply run_consumes in H as (u & _ & ->). lia.
Qed.

Lemma progress_Cls (p : ascii -> bool) (r : list item) op cap pos s f :
  run (Cls p :: r) op cap pos s = Some f -> pos < f_end f.
Proof.
  simpl. destruct s as [|a s]; [discriminate|].
  destruct (p a); [|discriminate].
  intros H. apply run_consumes in H as (u & _ & ->). lia.
Qed.

Lemma progressing_robotVarRegex : progressing robotVarRegex.
Proof. intros pos s f. apply progress_Lit. Qed.

Lemma progressing_assignmentRegex : progressing assignmentRegex.
Proof. intros pos s f. apply progress_Cls. Qed.

End SearchFacts.
Import SearchFacts.

(** ** Bracketed names on a line *)

Module RobotFacts.

Lemma isName_chars (name : jsstr) (c : ascii) :
  isName name = true -> c ∈ name -> isNameChar c = true.
Proof.
  destruct name as [|a cs]; [discriminate|]. simpl.
  intros [Ha Hcs]%andb_true_iff. rewrite forallb_forall in Hcs.
  intros [->|Hin]%elem_of_cons.
  - unfold isNameChar. now rewrite Ha.
  - apply Hcs. now apply list_elem_of_In.
Qed.

(** The pattern at the head of [s]. *)
Lemma run_robot_eq (pos : nat) (a b c : ascii) (t : jsstr) :
  run robotVarRegex [] None pos (a :: b :: c :: t) =
  if Ascii.eqb a "$" then
    if Ascii.eqb b "{" then
      if isNameStart c then
        match beyond isNameChar t with
        | d :: rest =>
            if Ascii.eqb d "}" then
              Some (Found (S (S (S (S pos)) + length (leading isNameChar t)))
                          rest (Some (c :: leading isNameChar t)))
            else None
        | [] => None
        end
      else None
    else None
  else None.
Proof.
  change (run robotVarRegex [] None pos (a :: b :: c :: t)) with
    (if Ascii.eqb a "$" then
       if Ascii.eqb b "{" then
         if isNameStart c then
           run [Star isNameChar; Close; Lit "}"] (c :: t) None
               (S (S (S pos))) t
         else None
       else None
     else None).
  rewrite run_star_close_lit by reflexivity.
  destruct (beyond isNameChar t) as [|d rest] eqn:E; [reflexivity|].
  destruct (Ascii.eqb d "}"); [|reflexivity].
  replace (take (length (c :: t) - length (d :: rest)) (c :: t))
    with (c :: leading isNameChar t); [reflexivity|].
  rewrite (leading_beyond isNameChar t) at 2 3. rewrite E.
  simpl length. rewrite length_app. simpl length.
  replace (S (length (leading isNameChar t) + S (length rest))
           - S (length rest))
    with (S (length (leading isNameChar t))) by lia.
  simpl. f_equal. now rewrite take_app_length.
Qed.

Lemma run_robot (pos : nat) (s : jsstr) (f : found) :
  run robotVarRegex [] None pos s = Some f <->
  exists name rest,
    isName name = true
    /\ s = str "${" ++ name ++ str "}" ++ rest
    /\ f = Found (pos + length (str "${" ++ name ++ str "}")) rest
                 (Some name).
Proof.
  split.
  - destruct s as [|a [|b [|c t]]]; try discriminate.
    + simpl. now destruct (Ascii.eqb a "$").
    + simpl. destruct (Ascii.eqb a "$"); [|discriminate].
      now destruct (Ascii.eqb b "{").
    + rewrite run_robot_eq.
      destruct (Ascii.eqb a "$") eqn:Ea; [|discriminate].
      destruct (Ascii.eqb b "{") eqn:Eb; [|discriminate].
      destruct (isNameStart c) eqn:Ec; [|discriminate].
      destruct (beyond isNameChar t) as [|d rest] eqn:E; [discriminate|].
      destruct (Ascii.eqb d "}") eqn:Ed; [|discriminate].
      apply Ascii.eqb_eq in Ea as ->, Eb as ->, Ed as ->.
      intros [= <-]. exists (c :: leading isNameChar t), rest.
      split; [|split].
      * simpl. now rewrite Ec, leading_all.
      * simpl. do 3 f_equal.
        rewrite (leading_beyond isNameChar t) at 1. now rewrite E.
      * f_equal. simpl. rewrite length_app. simpl. lia.
  - intros (name & rest & Hn & -> & ->).
    destruct name as [|c cs]; [discriminate|].
    simpl in Hn. apply andb_true_iff in Hn as [Hc Hcs].
    change (str "${" ++ (c :: cs) ++ str "}" ++ rest)
      with ("$"%char :: "{"%char :: c :: (cs ++ "}"%char :: rest)).
    rewrite run_robot_eq. simpl Ascii.eqb. cbv iota. rewrite Hc.
    destruct (leading_app isNameChar cs rest "}" Hcs eq_refl) as [-> ->].
    simpl Ascii.eqb. cbv iota. do 2 f_equal.
    simpl. rewrite length_app. simpl. lia.
Qed.

Lemma token_length (name : jsstr) :
  length (str "${" ++ name ++ str "}") = length name + 3.
Proof. simpl. rewrite length_app. simpl. lia. Qed.

(** An occurrence is a place where the pattern matches. *)
Lemma occurrence_run (lineText : jsstr) (j : nat) (name : jsstr) :
  occurrence lineText j name <->
  exists rest,
    run robotVarRegex [] None j (drop j lineText)
    = Some (Found (j + length (str "${" ++ name ++ str "}")) rest
                  (Some name)).
Proof.
  split.
  - intros (Hn & pre & post & -> & <-). exists post.
    rewrite drop_app_length. apply run_robot. now exists name, post.
  - intros (rest & H).
    apply run_robot in H as (name' & rest' & Hn & Hs & [= _ <- <-]).
    split; [assumption|]. exists (take j lineText), rest.
    split; [now rewrite <- Hs, take_drop|].
    rewrite length_take.
    assert (length (drop j lineText) <> 0) by now rewrite Hs.
    rewrite length_drop in *. lia.
Qed.

(** No occurrence starts inside another one. *)
Lemma token_interior (name rest t : jsstr) (d : nat) :
  isName name = true ->
  0 < d < length (str "${" ++ name ++ str "}") ->
  drop d (str "${" ++ name ++ str "}" ++ rest) <> "$"%char :: t.
Proof.
  intros Hn Hd.
  change (str "${" ++ name ++ str "}" ++ rest)
    with ("$"%char :: "{"%char :: (name ++ "}"%char :: rest)).
  change (length (str "${" ++ name ++ str "}"))
    with (S (S (length (name ++ str "}")))) in Hd.
  rewrite length_app in Hd. simpl in Hd.
  destruct d as [|[|e]]; [lia | simpl; discriminate |]. simpl.
  destruct (decide (e < length name)) as [Hlt|Hge].
  - rewrite drop_app_le by lia.
    destruct (lookup_lt_is_Some_2 name e Hlt) as [c Hc].
    rewrite (drop_S _ _ _ Hc). simpl. intros [= -> _].
    apply list_elem_of_lookup_2 in Hc.
    now pose proof (isName_chars _ _ Hn Hc).
  - replace e with (length name) by lia.
    rewrite drop_app_length. discriminate.
Qed.

Section Scan.
Variables (lineText : jsstr) (character : nat).

(** The rounds from offset [pos] on visit the occurrences from [pos]
    on, from left to right. *)
Lemma rounds_robot :
  forall fuel pos s pre,
    lineText = pre ++ s -> length pre = pos -> length s < fuel ->
    match find (holdsCursor character) (rounds fuel robotVarRegex pos s) with
    | Some m =>
        exists i name,
          group1 m = Some name /\ occurrence lineText i name
          /\ inSpan i name character /\ pos <= i
          /\ forall j name',
               pos <= j -> occurrence lineText j name' ->
               inSpan j name' character -> i <= j
    | None =>
        forall j name',
          pos <= j -> occurrence lineText j name' ->
          ~ inSpan j name' character
    end.
Proof.
  induction fuel as [|fuel IH]; intros pos s pre Hline Hpre Hfuel;
    [lia|].
  simpl rounds.
  destruct (search robotVarRegex pos s) as [m|] eqn:E.
  - pose proof (search_shrinks _ _ _ _ progressing_robotVarRegex E)
      as Hshrink.
    apply search_Some in E as (k & Hk & Hi & Hr & Hearly).
    apply run_robot in Hr as (name & rest & Hn & Hs & [= He Hrest Hg]).
    rewrite length_app in He. simpl in He.
    assert (Hocc : occurrence lineText (pos + k) name).
    { split; [assumption|]. exists (pre ++ take k s), rest. split.
      - now rewrite <- app_assoc, <- Hs, take_drop.
      - rewrite length_app, length_take. lia. }
    assert (Hdrop : forall j, pos <= j ->
                              drop j lineText = drop (j - pos) s).
    { intros j Hj. rewrite Hline, drop_app_ge by lia.
      now rewrite Hpre. }
    assert (Hbefore : forall j name',
               pos <= j < pos + k -> ~ occurrence lineText j name').
    { intros j name' Hj [rest' Hrun]%occurrence_run.
      rewrite Hdrop in Hrun by lia.
      specialize (Hearly (j - pos) ltac:(lia)).
      replace (pos + (j - pos)) with j in Hearly by lia. congruence. }
    assert (Hsame : forall name',
               occurrence lineText (pos + k) name' -> name' = name).
    { intros name' [r1 H1]%occurrence_run.
      apply occurrence_run in Hocc as [r2 H2]. congruence. }
    assert (Hinner : forall j name',
               pos + k < j < lastIndex m ->
               ~ occurrence lineText j name').
    { intros j name' Hj [rest' Hrun]%occurrence_run.
      apply run_robot in Hrun as (n' & r' & _ & Hs' & _).
      rewrite Hdrop in Hs' by lia.
      replace (j - pos) with (k + (j - (pos + k))) in Hs' by lia.
      rewrite <- drop_drop, Hs in Hs'.
      change (str "${" ++ n' ++ str "}" ++ r')
        with ("$"%char :: ("{"%char :: n' ++ str "}" ++ r')) in Hs'.
      revert Hs'. apply token_interior; [assumption|].
      rewrite token_length. lia. }
    simpl find. destruct (holdsCursor character m) eqn:Ehit.
    + exists (pos + k), name. unfold holdsCursor in Ehit.
      apply andb_true_iff in Ehit as [H1 H2].
      apply Nat.leb_le in H1, H2.
      split; [assumption|]. split; [assumption|].
      split; [unfold inSpan; rewrite token_length; lia|].
      split; [lia|].
      intros j name' Hj Ho _.
      destruct (decide (j < pos + k)); [|lia].
      exfalso. now apply (Hbefore j name').
    + assert (Hmiss : forall j name',
                 pos <= j < lastIndex m ->
                 occurrence lineText j name' ->
                 ~ inSpan j name' character).
      { intros j name' Hj Ho Hspan.
        destruct (decide (j < pos + k));
          [now apply (Hbefore j name')|].
        destruct (decide (j = pos + k)) as [->|];
          [|apply (Hinner j name'); [lia | assumption]].
        apply Hsame in Ho as ->. unfold holdsCursor in Ehit.
        apply andb_false_iff in Ehit.
        unfold inSpan in Hspan. rewrite token_length in Hspan.
        destruct Ehit as [H|H]; apply Nat.leb_gt in H; lia. }
      assert (Hline' : lineText
                       = (pre ++ take k s ++ str "${" ++ name ++ str "}")
                           ++ after m).
      { rewrite Hrest, Hline.
        rewrite <- (take_drop k s) at 1. rewrite Hs.
        simpl. rewrite <- !app_assoc. simpl. now rewrite <- app_assoc. }
      assert (Hpre' : length (pre ++ take k s
                                  ++ str "${" ++ name ++ str "}")
                      = lastIndex m).
      { rewrite !length_app, length_take, He. simpl. lia. }
      specialize (IH _ _ _ Hline' Hpre' ltac:(lia)).
      destruct (find (holdsCursor character) (rounds fuel robotVarRegex (lastIndex m)
                                 (after m))) as [m'|].
      * destruct IH as (i & name0 & Hg0 & Ho0 & Hs0 & Hle & Hmin).
        exists i, name0. do 3 (split; [assumption|]).
        split; [lia|].
        intros j name' Hj Ho Hspan.
        destruct (decide (j < lastIndex m));
          [|apply (Hmin j name'); [lia | assumption..]].
        exfalso. apply (Hmiss j name'); [lia | assumption..].
      * intros j name' Hj Ho.
        destruct (decide (j < lastIndex m));
          [apply Hmiss; [lia | assumption]|].
        apply IH; [lia | assumption].
  - simpl. intros j name' Hj [rest' Hrun]%occurrence_run _.
    assert (Hlen : j < length lineText).
    { destruct (decide (j < length lineText)); [assumption|].
      rewrite drop_ge in Hrun by lia. discriminate. }
    rewrite Hline, length_app in Hlen.
    pose proof (search_None _ _ _ E (j - pos) ltac:(lia)) as Hnone.
    rewrite Hline, drop_app_ge, Hpre in Hrun by lia.
    replace (pos + (j - pos)) with j in Hnone by lia. congruence.
Qed.
End Scan.

End RobotFacts.
Import RobotFacts.

(** ** Quoted literals on a line *)

Module QuoteFacts.

Lemma take_leading (p : ascii -> bool) (t rest : jsstr) (d : ascii) :
  beyond p t = d :: rest ->
  take (length t - length (d :: rest)) t = leading p t.
Proof.
  intros E. rewrite (leading_beyond p t) at 1 2. rewrite E.
  rewrite length_app.
  replace (length (leading p t) + length (d :: rest) - length (d :: rest))
    with (length (leading p t)) by lia.
  now rewrite take_app_length.
Qed.

Lemma isQuote_not_space (q : ascii) : isQuote q -> isSpace q = false.
Proof. now intros [->|[->| ->]]. Qed.

(** What follows the name in the three patterns. *)
Lemma run_quoteTail (q : ascii) op cap pos s :
  isSpace q = false ->
  run (quoteTail q) op cap pos s =
  match beyond isSpace s with
  | a :: t1 =>
      if Ascii.eqb a "=" then
        match beyond isSpace t1 with
        | b :: t2 =>
            if Ascii.eqb b q then
              match beyond (isNot q) t2 with
              | d :: rest =>
                  if Ascii.eqb d q then
                    Some (Found (S (S (S (pos + length (leading isSpace s))
                                       + length (leading isSpace t1))
                                    + length (leading (isNot q) t2)))
                                rest (Some (leading (isNot q) t2)))
                  else None
              | [] => None
              end
            else None
        | [] => None
        end
      else None
  | [] => None
  end.
Proof.
  intros Hq. unfold quoteTail. rewrite run_star_lit by reflexivity.
  destruct (beyond isSpace s) as [|a t1]; [reflexivity|].
  destruct (Ascii.eqb a "="); [|reflexivity].
  rewrite run_star_lit by assumption.
  destruct (beyond isSpace t1) as [|b t2]; [reflexivity|].
  destruct (Ascii.eqb b q); [|reflexivity].
  change (run [Open; Star (isNot q); Close; Lit q] op cap
              (S (S (pos + length (leading isSpace s))
                  + length (leading isSpace t1))) t2)
    with (run [Star (isNot q); Close; Lit q] t2 cap
              (S (S (pos + length (leading isSpace s))
                  + length (leading isSpace t1))) t2).
  rewrite run_star_close_lit by now apply isNot_false.
  destruct (beyond (isNot q) t2) as [|d rest] eqn:E; [reflexivity|].
  destruct (Ascii.eqb d q); [|reflexivity].
  now rewrite (take_leading _ _ _ _ E).
Qed.

(** The tail of the pattern, read off the text. *)
Lemma run_quoteTail_inv (q : ascii) op cap pos s f :
  isSpace q = false ->
  run (quoteTail q) op cap pos s = Some f ->
  exists ws1 ws2 v post,
    s = ws1 ++ "="%char :: ws2 ++ q :: v ++ q :: post
    /\ forallb isSpace ws1 = true /\ forallb isSpace ws2 = true
    /\ forallb (isNot q) v = true
    /\ f_group f = Some v /\ f_rest f = post.
Proof.
  intros Hq. rewrite run_quoteTail by assumption.
  destruct (beyond isSpace s) as [|a t1] eqn:E1; [discriminate|].
  destruct (Ascii.eqb a "=") eqn:Ea; [|discriminate].
  destruct (beyond isSpace t1) as [|b t2] eqn:E2; [discriminate|].
  destruct (Ascii.eqb b q) eqn:Eb; [|discriminate].
  destruct (beyond (isNot q) t2) as [|d rest] eqn:E3; [discriminate|].
  destruct (Ascii.eqb d q) eqn:Ed; [|discriminate].
  apply Ascii.eqb_eq in Ea as ->, Eb as ->, Ed as ->.
  intros [= <-].
  exists (leading isSpace s), (leading isSpace t1),
    (leading (isNot q) t2), rest.
  rewrite !leading_all. repeat split.
  rewrite (leading_beyond isSpace s) at 1. rewrite E1. do 2 f_equal.
  rewrite (leading_beyond isSpace t1) at 1. rewrite E2. do 2 f_equal.
  rewrite (leading_beyond (isNot q) t2) at 1. now rewrite E3.
Qed.

Lemma run_quoteTail_intro (q : ascii) op cap pos ws1 ws2 v post :
  isQuote q ->
  forallb isSpace ws1 = true -> forallb isSpace ws2 = true ->
  forallb (isNot q) v = true ->
  exists e,
    run (quoteTail q) op cap pos
        (ws1 ++ "="%char :: ws2 ++ q :: v ++ q :: post)
    = Some (Found e post (Some v)).
Proof.
  intros Hq H1 H2 Hv.
  rewrite run_quoteTail by now apply isQuote_not_space.
  destruct (leading_app isSpace ws1 (ws2 ++ q :: v ++ q :: post) "="
                        H1 eq_refl) as [-> ->].
  simpl Ascii.eqb. cbv iota.
  destruct (leading_app isSpace ws2 (v ++ q :: post) q H2
                        (isQuote_not_space q Hq)) as [-> ->].
  rewrite Ascii.eqb_refl.
  destruct (leading_app (isNot q) v post q Hv
                        (proj2 (isNot_false q q) eq_refl)) as [-> ->].
  rewrite Ascii.eqb_refl. now eexists.
Qed.

(** A name without [$] is spliced in as its own characters. *)
Lemma splice_plain (x : jsstr) :
  "$"%char ∉ x -> splice x = map Lit x.
Proof.
  unfold splice. induction x as [|c x IH]; [reflexivity|].
  intros Hnot. apply not_elem_of_cons in Hnot as [Hc Hx].
  simpl. rewrite IH by assumption.
  destruct (isChar "$" c) eqn:E; [|reflexivity].
  apply isChar_true in E. congruence.
Qed.

(** After [$] has asserted the end of the input, nothing is left for
    the rest of the name and for [=]. *)
Lemma run_splice_nil (x : jsstr) (tail : list item) :
  (forall op cap pos, run tail op cap pos [] = None) ->
  forall op cap pos, run (splice x ++ tail) op cap pos [] = None.
Proof.
  intros Htail. induction x as [|c x IH]; intros op cap pos; simpl.
  - apply Htail.
  - destruct (isChar "$" c); simpl; [apply IH | reflexivity].
Qed.

Lemma run_splice_dollar (x : jsstr) (tail : list item) :
  (forall op cap pos, run tail op cap pos [] = None) ->
  "$"%char ∈ x ->
  forall op cap pos s, run (splice x ++ tail) op cap pos s = None.
Proof.
  intros Htail. induction x as [|c x IH]; intros Hin op cap pos s.
  - now apply elem_of_nil in Hin.
  - simpl. destruct (isChar "$" c) eqn:E; simpl.
    + destruct s; [|reflexivity].
      now apply (run_splice_nil x tail Htail).
    + destruct s as [|a s]; [reflexivity|].
      destruct (Ascii.eqb a c); [|reflexivity].
      apply IH. apply elem_of_cons in Hin as [Heq|Hin]; [|assumption].
      subst c. discriminate.
Qed.

Lemma quoteTail_nil (q : ascii) op cap pos :
  run (quoteTail q) op cap pos [] = None.
Proof. reflexivity. Qed.

Lemma search_None_intro (r : list item) :
  (forall pos s, run r [] None pos s = None) ->
  forall s pos, search r pos s = None.
Proof.
  intros H. induction s as [|c s IH]; intros pos; simpl; rewrite H;
    [reflexivity | apply IH].
Qed.

(** A name with a [$] in it is never captured. *)
Lemma capturedBy_dollar (q : ascii) (line x : jsstr) :
  "$"%char ∈ x -> capturedBy q line x = None.
Proof.
  intros Hin. unfold capturedBy, exec, quoteRegex.
  rewrite search_None_intro; [reflexivity|].
  intros pos s. apply run_splice_dollar; [|assumption].
  apply quoteTail_nil.
Qed.

Lemma captured_Some (m : option result) (v : jsstr) :
  captured m = Some v ->
  exists r, m = Some r /\ group1 r = Some v /\ v <> [].
Proof.
  destruct m as [[i e a [w|]]|]; simpl; try discriminate.
  destruct w; simpl; [discriminate|]. intros [= <-].
  eexists. repeat split. discriminate.
Qed.

(** The leftmost place where the name starts decides: when the first
    character of the name does not occur in front of the assignment, its
    literal is what the pattern captures. *)
Lemma capturedBy_leftmost (q c : ascii) (pre cs ws1 ws2 v post : jsstr) :
  isQuote q ->
  "$"%char ∉ (c :: cs) -> c ∉ pre ->
  forallb isSpace ws1 = true -> forallb isSpace ws2 = true ->
  v <> [] -> q ∉ v ->
  capturedBy q (assignment pre (c :: cs) ws1 ws2 q v post) (c :: cs)
  = Some v.
Proof.
  intros Hq Hplain Hpre H1 H2 Hv Hqv.
  unfold capturedBy, exec, assignment, quoteRegex.
  rewrite splice_plain by assumption.
  rewrite search_skip.
  - assert (Hw : forallb (isNot q) v = true).
    { apply forallb_forall. intros a Ha. apply isNot_true.
      intros ->. now apply Hqv, list_elem_of_In. }
    destruct (run_quoteTail_intro q [] None (0 + length pre + length (c :: cs))
                                  ws1 ws2 v post Hq H1 H2 Hw) as [e He].
    erewrite search_here; [|rewrite run_literals; exact He].
    simpl. now destruct v.
  - intros j Hj. rewrite drop_app_le by lia.
    destruct (lookup_lt_is_Some_2 pre j Hj) as [a Ha].
    rewrite (drop_S _ _ _ Ha). simpl.
    destruct (Ascii.eqb a c) eqn:E; [|reflexivity].
    apply Ascii.eqb_eq in E as ->.
    now apply list_elem_of_lookup_2 in Ha.
Qed.

(** Where the pattern matches, an assignment stands, and conversely. *)
Lemma run_assignsAt (q : ascii) (line x : jsstr) (i : nat) (f : found) :
  isQuote q -> "$"%char ∉ x ->
  run (quoteRegex q x) [] None i (drop i line) = Some f ->
  exists v, f_group f = Some v /\ assignsAt q line x i v.
Proof.
  intros Hq Hplain Hr.
  assert (Hi : i < length line).
  { destruct (decide (i < length line)); [assumption|].
    rewrite drop_ge in Hr by lia. unfold quoteRegex in Hr.
    rewrite run_splice_nil in Hr; [discriminate | apply quoteTail_nil]. }
  unfold quoteRegex in Hr. rewrite splice_plain in Hr by assumption.
  destruct (run_literals_inv _ _ _ _ _ _ _ Hr) as [s' Hs'].
  rewrite Hs', run_literals in Hr.
  apply run_quoteTail_inv in Hr
      as (ws1 & ws2 & v & post & -> & H1 & H2 & Hv & Hg & _);
    [|now apply isQuote_not_space].
  exists v. split; [assumption|].
  exists (take i line), ws1, ws2, post. unfold assignment.
  split; [now rewrite <- Hs', take_drop|].
  split; [rewrite length_take; lia|]. do 2 (split; [assumption|]).
  intros Hin. rewrite forallb_forall in Hv.
  apply list_elem_of_In, Hv, isNot_true in Hin. congruence.
Qed.

Lemma assignsAt_run (q : ascii) (line x : jsstr) (i : nat) (v : jsstr) :
  isQuote q -> "$"%char ∉ x ->
  assignsAt q line x i v ->
  exists e post,
    run (quoteRegex q x) [] None i (drop i line)
    = Some (Found e post (Some v)).
Proof.
  intros Hq Hplain (pre & ws1 & ws2 & post & -> & <- & H1 & H2 & Hqv).
  unfold assignment, quoteRegex. rewrite drop_app_length.
  rewrite splice_plain, run_literals by assumption.
  assert (Hv : forallb (isNot q) v = true).
  { apply forallb_forall. intros a Ha. apply isNot_true.
    intros ->. now apply Hqv, list_elem_of_In. }
  destruct (run_quoteTail_intro q [] None (length pre + length x)
                                ws1 ws2 v post Hq H1 H2 Hv) as [e He].
  now exists e, post.
Qed.

(** What a pattern captures: the literal of the leftmost assignment on
    the line, provided it is not empty. *)
Lemma capturedBy_iff (q : ascii) (line x v : jsstr) :
  isQuote q -> "$"%char ∉ x ->
  capturedBy q line x = Some v <->
  v <> [] /\
  exists i, assignsAt q line x i v
            /\ forall j w, j < i -> ~ assignsAt q line x j w.
Proof.
  intros Hq Hplain. unfold capturedBy, exec. split.
  - intros (m & Hm & Hg & Hv)%captured_Some.
    apply search_Some in Hm as (k & Hk & _ & Hr & Hearly).
    split; [assumption|]. exists k.
    apply run_assignsAt in Hr as (w & Hw & Hat); try assumption.
    simpl in Hw, Hearly. rewrite Hg in Hw. injection Hw as <-.
    split; [assumption|].
    intros j w Hj (e & post & Hrun)%assignsAt_run; try assumption.
    rewrite (Hearly j Hj) in Hrun. discriminate.
  - intros (Hv & i & Hat & Hleft).
    assert (Hi : i <= length line).
    { destruct Hat as (pre & ? & ? & ? & -> & <- & _).
      unfold assignment. rewrite length_app. lia. }
    destruct (assignsAt_run _ _ _ _ _ Hq Hplain Hat) as (e & post & Hrun).
    rewrite (search_first _ _ 0 i _ Hi Hrun).
    + simpl. now destruct v.
    + intros j Hj. simpl.
      destruct (run (quoteRegex q x) [] None j (drop j line)) as [f|] eqn:E;
        [|reflexivity].
      apply run_assignsAt in E as (w & _ & Hw); try assumption.
      now destruct (Hleft j w Hj).
Qed.

End QuoteFacts.
Import QuoteFacts.

(** ** The Identifier Extractor *)

(** C8.  In a Robot Framework document, [getVariableAtPosition] returns the
    name of the leftmost occurrence of [${name}] on the cursor line whose
    span, braces included, holds the cursor offset, and nothing when no
    occurrence on the line holds it. *)
Theorem bracketed_identifier_at_cursor
        (document : TextDocument) (position : Position) (lineText : jsstr) :
  isRobot document = true ->
  lines document !! line position = Some lineText ->
  exists found,
    getVariableAtPosition document position = Normal found /\
    match found with
    | Some name =>
        exists i,
          occurrence lineText i name
          /\ inSpan i name (character position)
          /\ forall j name',
               occurrence lineText j name' ->
               inSpan j name' (character position) -> i <= j
    | None =>
        forall j name',
          occurrence lineText j name' ->
          ~ inSpan j name' (character position)
    end.
Proof.
  intros Hrobot Hline. unfold getVariableAtPosition.
  rewrite Hline, Hrobot. eexists. split; [reflexivity|].
  unfold robotVariableAt, execAll.
  pose proof (rounds_robot lineText (character position)
                (S (length lineText)) 0 lineText [] eq_refl eq_refl
                ltac:(lia)) as H.
  cbv zeta in H.
  destruct (find _ (rounds _ robotVarRegex 0 lineText)) as [m|].
  - destruct H as (i & name & -> & Ho & Hs & _ & Hmin).
    exists i. split; [assumption|]. split; [assumption|].
    intros j name' Hj. apply Hmin; [lia | assumption].
  - intros j name' Hj. apply H; [lia | assumption].
Qed.

Lemma bracketed_identifier_at_cursor_witness :
  exists found,
    getVariableAtPosition robotSample (at_ 0 14) = Normal found /\
    match found with
    | Some name =>
        exists i,
          occurrence (str "Click    ${A}${B_1}  ${${C}}") i name
          /\ inSpan i name 14
          /\ forall j name',
               occurrence (str "Click    ${A}${B_1}  ${${C}}") j name' ->
               inSpan j name' 14 -> i <= j
    | None =>
        forall j name',
          occurrence (str "Click    ${A}${B_1}  ${${C}}") j name' ->
          ~ inSpan j name' 14
    end.
Proof.
  apply (bracketed_identifier_at_cursor robotSample (at_ 0 14)).
  - reflexivity.
  - reflexivity.
Defined.

(** ** The Assignment Value Extractor *)

Lemma beyond_nil (p : ascii -> bool) (s : jsstr) :
  beyond p s = [] <-> forallb p s = true.
Proof.
  induction s as [|c s IH]; simpl; [easy|].
  destruct (p c); simpl; [exact IH | easy].
Qed.

(** The validation of a word accepts the names of the word family and
    nothing else. *)
Lemma validWord_isWord (word : jsstr) :
  validWord word = Some word <-> isWord word = true.
Proof.
  unfold validWord, test, exec.
  assert (Hlater : forall s pos, search wordRegex (S pos) s = None).
  { induction s as [|c s IH]; intros pos; [reflexivity|]. simpl.
    apply IH. }
  destruct word as [|c cs]; [easy|].
  change (search wordRegex 0 (c :: cs))
    with (match run wordRegex [] None 0 (c :: cs) with
          | Some f => Some (Result 0 (f_end f) (f_rest f) (f_group f))
          | None => search wordRegex 1 cs
          end).
  rewrite Hlater.
  change (run wordRegex [] None 0 (c :: cs))
    with (if isWordStart c
          then greedy isWordChar (run [Eoi] [] None) 1 cs else None).
  simpl isWord. destruct (isWordStart c); simpl; [|easy].
  rewrite greedy_commit by reflexivity. simpl.
  destruct (beyond isWordChar cs) eqn:E.
  - apply beyond_nil in E. now rewrite E.
  - destruct (forallb isWordChar cs) eqn:F; [|easy].
    apply beyond_nil in F. congruence.
Qed.

Lemma extractVariableValue_eq (line x : jsstr) :
  extractVariableValue line x
  = match capturedBy dquote line x with
    | Some v => Some v
    | None =>
        match capturedBy squote line x with
        | Some v => Some v
        | None => capturedBy bquote line x
        end
    end.
Proof. reflexivity. Qed.

Lemma captured_truthy (m : option result) (v : jsstr) :
  captured m = Some v -> truthy v = true.
Proof.
  destruct m as [[i e a [w|]]|]; simpl; try discriminate.
  destruct (truthy w) eqn:T; [|discriminate]. now intros [= <-].
Qed.

Lemma extractVariableValue_truthy (l x v : jsstr) :
  extractVariableValue l x = Some v -> truthy v = true.
Proof.
  unfold extractVariableValue.
  destruct (captured (exec (doubleQuoteRegex x) l)) eqn:D;
    [intros [= <-]; now apply captured_truthy in D|].
  destruct (captured (exec (singleQuoteRegex x) l)) eqn:S;
    [intros [= <-]; now apply captured_truthy in S|].
  apply captured_truthy.
Qed.

(** The literal of the leftmost assignment is the result, unless a
    pattern of higher priority captures something on the line. *)
Lemma extractVariableValue_leftmost
      (q : ascii) (pre x ws1 ws2 v post : jsstr) :
  let line := assignment pre x ws1 ws2 q v post in
  x <> [] ->
  "$"%char ∉ x -> (forall c, head x = Some c -> c ∉ pre) ->
  forallb isSpace ws1 = true -> forallb isSpace ws2 = true ->
  v <> [] -> q ∉ v ->
  q = dquote
  \/ (q = squote /\ capturedBy dquote line x = None)
  \/ (q = bquote /\ capturedBy dquote line x = None
                 /\ capturedBy squote line x = None) ->
  extractVariableValue line x = Some v.
Proof.
  intros line Hx Hplain Hpre H1 H2 Hv Hqv Hprio.
  destruct x as [|c cs]; [congruence|].
  assert (Hcap : capturedBy q line (c :: cs) = Some v).
  { apply capturedBy_leftmost; try assumption.
    - destruct Hprio as [->|[[-> _]|[-> _]]]; unfold isQuote; auto.
    - now apply Hpre. }
  rewrite extractVariableValue_eq.
  destruct Hprio as [->|[[-> D]|[-> [D S]]]].
  - now rewrite Hcap.
  - now rewrite D, Hcap.
  - now rewrite D, S, Hcap.
Qed.

Lemma validWord_nonempty (x : jsstr) : validWord x = Some x -> x <> [].
Proof. now destruct x. Qed.

(** C3.  For a name of the word family, [extractVariableValue] tries the
    double-quoted, the single-quoted and the back-quoted pattern in this
    order and returns the first usable capture, which is never empty.  The
    pattern for the quote [q] captures the literal of the leftmost
    assignment to the name whose literal stands between two [q], provided
    that literal is not empty; the literal holds no [q], so a quote of
    another kind inside it does not cut it.  Hence the literal of an
    assignment with no such assignment further left is the result,
    unless a pattern of higher priority captures something on the line. *)
Theorem quoted_value_extraction (line x : jsstr) :
  validWord x = Some x ->
  extractVariableValue line x
  = match capturedBy dquote line x with
    | Some v => Some v
    | None =>
        match capturedBy squote line x with
        | Some v => Some v
        | None => capturedBy bquote line x
        end
    end
  /\ (forall v, extractVariableValue line x = Some v -> v <> [])
  /\ (forall q, isQuote q -> "$"%char ∈ x -> capturedBy q line x = None)
  /\ (forall q v,
        isQuote q -> "$"%char ∉ x ->
        capturedBy q line x = Some v <->
        v <> [] /\
        exists i, assignsAt q line x i v
                  /\ forall j w, j < i -> ~ assignsAt q line x j w)
  /\ extractVariableValue (str "x = " ++ squote :: str "a" ++ dquote
                                      :: str "b" ++ [squote]) (str "x")
     = Some (str "a" ++ dquote :: str "b")
  /\ (forall q i v,
        "$"%char ∉ x -> v <> [] ->
        assignsAt q line x i v ->
        (forall j w, j < i -> ~ assignsAt q line x j w) ->
        q = dquote
        \/ (q = squote /\ capturedBy dquote line x = None)
        \/ (q = bquote /\ capturedBy dquote line x = None
                       /\ capturedBy squote line x = None) ->
        extractVariableValue line x = Some v).
Proof.
  intros Hx. split; [apply extractVariableValue_eq|].
  split; [|split; [|split; [|split]]].
  - intros v Hv. now apply extractVariableValue_truthy in Hv; destruct v.
  - intros q _ Hin. now apply capturedBy_dollar.
  - intros q v. apply capturedBy_iff.
  - reflexivity.
  - intros q i v Hplain Hv Hat Hleft Hprio.
    assert (Hq : isQuote q)
      by (destruct Hprio as [->|[[-> _]|[-> _]]]; unfold isQuote; auto).
    assert (Hcap : capturedBy q line x = Some v)
      by (apply capturedBy_iff; eauto).
    rewrite extractVariableValue_eq.
    destruct Hprio as [->|[[-> D]|[-> [D S]]]].
    + now rewrite Hcap.
    + now rewrite D, Hcap.
    + now rewrite D, S, Hcap.
Qed.

Lemma quoted_value_extraction_witness :
  extractVariableValue (str "x = 'abc'; y = 2") (str "x") = Some (str "abc").
Proof.
  refine (proj2 (proj2 (proj2 (proj2 (proj2
            (quoted_value_extraction (str "x = 'abc'; y = 2") (str "x")
                                     eq_refl)))))
            squote 0 (str "abc") _ _ _ _ _).
  - absent.
  - discriminate.
  - exists [], (str " "), (str " "), (str "; y = 2").
    repeat split. absent.
  - intros j w Hj. lia.
  - right. left. split; reflexivity.
Defined.

(** The double-quoted literal [abc] assigned to [x] is on the line, and
    the result is the literal of an assignment further left. *)
Lemma quoted_value_any_line_counterexample :
  twoLiterals
  = assignment (str "x = " ++ quoted dquote "z" ++ str "; ") (str "x")
               (str " ") (str " ") dquote (str "abc") []
  /\ extractVariableValue twoLiterals (str "x") = Some (str "z")
  /\ extractVariableValue twoLiterals (str "x") <> Some (str "abc").
Proof.
  split; [reflexivity|]. split; [reflexivity|]. discriminate.
Qed.

(** C9.  The name is looked for anywhere on the line, not as a token of its
    own: the line [max = "v"] lists the one name [max], and the extractor
    asked for [x] returns [v].  In general the name may follow directly on
    any text that does not hold its first character. *)
Theorem identifier_matched_inside_longer_name :
  (listedNames false longerName = [Some (str "max")]
   /\ extractVariableValue longerName (str "x") = Some (str "v"))
  /\ forall pre x v,
      validWord x = Some x -> "$"%char ∉ x ->
      (forall c, head x = Some c -> c ∉ pre) ->
      v <> [] -> dquote ∉ v ->
      extractVariableValue
        (pre ++ x ++ str " = " ++ dquote :: v ++ [dquote]) x
      = Some v.
Proof.
  split; [split; reflexivity|].
  intros pre x v Hx Hplain Hpre Hv Hqv.
  apply (extractVariableValue_leftmost dquote pre x (str " ") (str " ") v []);
    try assumption; try reflexivity.
  - now apply validWord_nonempty.
  - now left.
Qed.

Lemma identifier_matched_inside_longer_name_witness :
  extractVariableValue
    (str "ma" ++ str "x" ++ str " = " ++ dquote :: str "v" ++ [dquote])
    (str "x")
  = Some (str "v").
Proof.
  apply (proj2 identifier_matched_inside_longer_name
               (str "ma") (str "x") (str "v")).
  - reflexivity.
  - absent.
  - intros c [= <-]. absent.
  - discriminate.
  - absent.
Defined.

(** ** The Document Assignment Index *)

Module IndexFacts.

Lemma allTruthy_empty : allTruthy ∅.
Proof. intros k v. now rewrite lookup_empty. Qed.

Lemma remember_allTruthy extract lineText cache m :
  allTruthy cache -> allTruthy (remember extract lineText cache m).
Proof.
  intros Hwf. unfold remember.
  destruct (group1 m) as [varName|]; [|assumption].
  destruct (match js_get cache varName with
            | Own v => negb (truthy v)
            | Inherited => false
            | Undefined => true
            end); [|assumption].
  destruct (extract lineText varName) as [value|]; [|assumption].
  destruct (truthy value) eqn:T; [|assumption].
  intros k v. rewrite lookup_insert. case_decide.
  - now intros [= <-].
  - apply Hwf.
Qed.

(** One round records the value of its name, unless the name already has
    one or is a member of [Object.prototype]. *)
Lemma remember_lookup extract lineText cache m (k : jsstr) :
  allTruthy cache ->
  remember extract lineText cache m !! k =
  match cache !! k with
  | Some v => Some v
  | None =>
      if bool_decide (group1 m = Some k) && negb (inPrototype k)
      then usable (extract lineText k) else None
  end.
Proof.
  intros Hwf. unfold remember.
  destruct (group1 m) as [varName|]; [|now destruct (cache !! k)].
  unfold js_get. destruct (cache !! varName) as [w|] eqn:En.
  - rewrite (Hwf _ _ En). simpl.
    destruct (cache !! k) eqn:Ek; [reflexivity|].
    rewrite bool_decide_eq_false_2; [reflexivity|]. congruence.
  - destruct (inPrototype varName) eqn:Ep.
    + destruct (cache !! k) eqn:Ek; [reflexivity|].
      case_bool_decide as Hk; [|reflexivity].
      injection Hk as ->. now rewrite Ep.
    + unfold usable.
      destruct (decide (varName = k)) as [->|Hne].
      * rewrite En, bool_decide_eq_true_2, Ep by reflexivity. simpl.
        destruct (extract lineText k) as [value|]; [|assumption].
        destruct (truthy value); [|assumption].
        apply lookup_insert_eq.
      * assert (remember_other :
                  forall c : gmap jsstr jsstr,
                    (c = cache \/ exists value, c = <[varName:=value]> cache)
                    -> c !! k = cache !! k).
        { intros c [->|[value ->]]; [reflexivity|].
          now apply lookup_insert_ne. }
        rewrite (remember_other
                   (match extract lineText varName with
                    | Some value =>
                        if truthy value then <[varName:=value]> cache
                        else cache
                    | None => cache
                    end)).
        -- destruct (cache !! k); [reflexivity|].
           rewrite bool_decide_eq_false_2; [reflexivity|]. congruence.
        -- destruct (extract lineText varName) as [value|]; [|now left].
           destruct (truthy value); [right; now exists value | now left].
Qed.

Lemma rounds_lookup extract lineText (ms : list result) :
  forall cache (k : jsstr),
    allTruthy cache ->
    fold_left (remember extract lineText) ms cache !! k =
    match cache !! k with
    | Some v => Some v
    | None =>
        if bool_decide (Some k ∈ map group1 ms) && negb (inPrototype k)
        then usable (extract lineText k) else None
    end.
Proof.
  induction ms as [|m ms IH]; intros cache k Hwf; simpl.
  - now destruct (cache !! k).
  - rewrite IH by now apply remember_allTruthy.
    rewrite remember_lookup by assumption.
    destruct (cache !! k) as [v|]; [reflexivity|].
    destruct (inPrototype k); simpl.
    + now rewrite !andb_false_r.
    + rewrite !andb_true_r.
      destruct (decide (group1 m = Some k)) as [Hm|Hm].
      * rewrite (bool_decide_eq_true_2 _ Hm).
        rewrite (bool_decide_eq_true_2 (Some k ∈ group1 m :: map group1 ms))
          by (rewrite Hm; apply elem_of_cons; now left).
        destruct (usable (extract lineText k)); [reflexivity|].
        now destruct (bool_decide _).
      * rewrite (bool_decide_eq_false_2 _ Hm).
        rewrite (bool_decide_ext (Some k ∈ group1 m :: map group1 ms)
                                 (Some k ∈ map group1 ms)); [reflexivity|].
        rewrite elem_of_cons. intuition congruence.
Qed.

Lemma rounds_allTruthy extract lineText (ms : list result) :
  forall cache,
    allTruthy cache ->
    allTruthy (fold_left (remember extract lineText) ms cache).
Proof.
  induction ms as [|m ms IH]; intros cache Hwf; simpl; [assumption|].
  now apply IH, remember_allTruthy.
Qed.

Lemma scanLine_allTruthy robot cache lineText :
  allTruthy cache -> allTruthy (scanLine robot cache lineText).
Proof. unfold scanLine. destruct robot; apply rounds_allTruthy. Qed.

(** One line of the scan. *)
Lemma scanLine_lookup robot cache lineText (k : jsstr) :
  allTruthy cache ->
  scanLine robot cache lineText !! k =
  match cache !! k with
  | Some v => Some v
  | None =>
      if bool_decide (Some k ∈ listedNames robot lineText)
         && negb (inPrototype k)
      then usable (extractor robot lineText k) else None
  end.
Proof.
  intros Hwf. unfold scanLine, listedNames, extractor.
  destruct robot; now apply rounds_lookup.
Qed.

(** The whole scan, from any starting cache. *)
Lemma scanLines_lookup robot (ls : list jsstr) :
  forall cache (k : jsstr),
    allTruthy cache ->
    fold_left (scanLine robot) ls cache !! k =
    match cache !! k with
    | Some v => Some v
    | None => if inPrototype k then None else firstRecorded robot ls k
    end.
Proof.
  induction ls as [|l ls IH]; intros cache k Hwf; simpl.
  - destruct (cache !! k); [reflexivity | now destruct (inPrototype k)].
  - rewrite IH by now apply scanLine_allTruthy.
    rewrite scanLine_lookup by assumption.
    destruct (cache !! k) as [v|]; [reflexivity|].
    destruct (inPrototype k); simpl.
    + now rewrite andb_false_r.
    + rewrite andb_true_r.
      destruct (bool_decide (Some k ∈ listedNames robot l)); [|reflexivity].
      unfold usable. destruct (extractor robot l k) as [v|]; [|reflexivity].
      now destruct (truthy v).
Qed.

Lemma scanDocument_lookup (document : TextDocument) (k : jsstr) :
  scanDocument document !! k =
  if inPrototype k then None
  else firstRecorded (isRobot document) (lines document) k.
Proof.
  unfold scanDocument.
  rewrite scanLines_lookup by apply allTruthy_empty.
  now rewrite lookup_empty.
Qed.

Lemma firstRecorded_truthy robot ls (k v : jsstr) :
  firstRecorded robot ls k = Some v -> truthy v = true.
Proof.
  induction ls as [|l ls IH]; simpl; [discriminate|].
  destruct (bool_decide _); [|exact IH].
  destruct (extractor robot l k) as [w|]; [|exact IH].
  destruct (truthy w) eqn:T; [|exact IH]. now intros [= <-].
Qed.

(** What a lookup in a freshly built index returns. *)
Lemma lookup_scanDocument (document : TextDocument) (k : jsstr) :
  lookupAssignment (scanDocument document) k =
  if inPrototype k then Some VObject
  else option_map VString
         (firstRecorded (isRobot document) (lines document) k).
Proof.
  unfold lookupAssignment, js_get. rewrite scanDocument_lookup.
  destruct (inPrototype k); [reflexivity|].
  destruct (firstRecorded _ _ k) as [v|] eqn:E; [|reflexivity].
  now rewrite (firstRecorded_truthy _ _ _ _ E).
Qed.

(** A name with a [$] in it is no member of [Object.prototype]. *)
Lemma dollar_not_inPrototype (x : jsstr) :
  "$"%char ∈ x -> inPrototype x = false.
Proof.
  intros Hin. unfold inPrototype. apply bool_decide_eq_false_2.
  intros Hx. vm_compute in Hx.
  repeat (apply elem_of_cons in Hx as [->|Hx]; [revert Hin; absent|]).
  now apply elem_of_nil in Hx.
Qed.

End IndexFacts.
Import IndexFacts.

Lemma extractRobotVariableValue_dollar (line x : jsstr) :
  "$"%char ∈ x -> extractRobotVariableValue line x = None.
Proof.
  intros Hin. unfold extractRobotVariableValue, exec, robotValueRegex.
  rewrite search_None_intro; [reflexivity|].
  intros pos s. simpl.
  destruct s as [|a s]; [reflexivity|].
  destruct (Ascii.eqb a "$"); [|reflexivity].
  destruct s as [|b s]; [reflexivity|].
  destruct (Ascii.eqb b "{"); [|reflexivity].
  now apply run_splice_dollar.
Qed.

Lemma extractVariableValue_dollar (line x : jsstr) :
  "$"%char ∈ x -> extractVariableValue line x = None.
Proof.
  intros Hin. rewrite extractVariableValue_eq.
  now rewrite !capturedBy_dollar.
Qed.

Lemma firstRecorded_none robot ls (x : jsstr) :
  (forall l, extractor robot l x = None) -> firstRecorded robot ls x = None.
Proof.
  intros H. induction ls as [|l ls IH]; simpl; [reflexivity|].
  rewrite H. now destruct (bool_decide _).
Qed.

Lemma firstAssignment_none ls (x : jsstr) :
  (forall l, extractVariableValue l x = None) ->
  Legacy.firstAssignment ls x = None.
Proof.
  intros H. induction ls as [|l ls IH]; simpl; [reflexivity|].
  now rewrite H.
Qed.

(** C10.  A name with a [$] in it, which the validation of words accepts,
    never gets a value: the extractor returns nothing for it on every
    line, and so do the scan of the second version, its look at the cursor
    line, and a lookup in the index built from any document. *)
Theorem dollar_identifier_never_resolves (x : jsstr) :
  validWord x = Some x -> "$"%char ∈ x ->
  (forall line, extractVariableValue line x = None)
  /\ (forall document, Legacy.findVariableAssignment document x = None)
  /\ (forall document position,
        Legacy.resolveValue document position x = Normal None
        \/ Legacy.resolveValue document position x = Throw)
  /\ (forall document, lookupAssignment (scanDocument document) x = None).
Proof.
  intros _ Hin.
  assert (Hline : forall line, extractVariableValue line x = None)
    by (intros line; now apply extractVariableValue_dollar).
  assert (Hdoc : forall document,
             Legacy.findVariableAssignment document x = None)
    by (intros document; now apply firstAssignment_none).
  split; [assumption|]. split; [assumption|]. split.
  - intros document position. unfold Legacy.resolveValue.
    destruct (lines document !! line position); [|now right].
    left. now rewrite Hline, Hdoc.
  - intros document. rewrite lookup_scanDocument.
    rewrite dollar_not_inPrototype by assumption.
    rewrite firstRecorded_none; [reflexivity|].
    intros l. unfold extractor. destruct (isRobot document).
    + now apply extractRobotVariableValue_dollar.
    + apply Hline.
Qed.

Lemma dollar_identifier_never_resolves_witness :
  (forall line, extractVariableValue line (str "btn$") = None)
  /\ (forall document,
        Legacy.findVariableAssignment document (str "btn$") = None)
  /\ (forall document position,
        Legacy.resolveValue document position (str "btn$") = Normal None
        \/ Legacy.resolveValue document position (str "btn$") = Throw)
  /\ (forall document,
        lookupAssignment (scanDocument document) (str "btn$") = None).
Proof.
  apply (dollar_identifier_never_resolves (str "btn$")).
  - reflexivity.
  - vm_compute. do 3 (apply elem_of_cons; right). apply elem_of_cons. now left.
Defined.

(** C1.  A lookup in a freshly built index returns, for a name that
    [Object.prototype] does not have, the value of the first line that
    lists the name and on which its extractor yields a value; for a member
    of [Object.prototype] the index records nothing and the lookup returns
    that member.  The file that assigns ['//form'] to [constructor] shows
    the second case. *)
Theorem index_first_occurrence :
  (forall document name,
      lookupAssignment (scanDocument document) name
      = if inPrototype name then Some VObject
        else option_map VString
               (firstRecorded (isRobot document) (lines document) name))
  /\ firstRecorded false (lines prototypeSample) (str "constructor")
     = Some (str "//form")
  /\ scanDocument prototypeSample !! str "constructor" = None
  /\ fst (findVariableAssignmentEfficient
            prototypeSample (str "constructor") 0 newProvider)
     = Some VObject
  /\ Legacy.findVariableAssignment prototypeSample (str "constructor")
     = Some (str "//form").
Proof.
  split; [apply lookup_scanDocument|].
  split; [reflexivity|]. split; [|split; [|reflexivity]].
  - now rewrite scanDocument_lookup.
  - unfold findVariableAssignmentEfficient, buildVariableAssignmentCache.
    change (assignmentsFresh newProvider prototypeSample 0) with false.
    cbv iota beta. simpl fst. now rewrite lookup_scanDocument.
Qed.

Example index_two_assignments :
  fst (findVariableAssignmentEfficient twiceSample (str "x") 0 newProvider)
  = Some (VString (str "a")).
Proof.
  unfold findVariableAssignmentEfficient, buildVariableAssignmentCache.
  change (assignmentsFresh newProvider twiceSample 0) with false.
  cbv iota beta. simpl fst. now rewrite lookup_scanDocument.
Qed.

(** ** The two ways to resolve a value *)

(** When every line that yields a value for the name also lists it, the
    index and the plain scan stop at the same line. *)
Lemma firstRecorded_firstAssignment (ls : list jsstr) (x : jsstr) :
  (forall l, l ∈ ls -> extractVariableValue l x <> None ->
             Some x ∈ listedNames false l) ->
  firstRecorded false ls x = Legacy.firstAssignment ls x.
Proof.
  induction ls as [|l ls IH]; intros H; simpl; [reflexivity|].
  rewrite IH by (intros l' Hl'; apply H; now apply elem_of_cons; right).
  case_bool_decide as Hl; [reflexivity|].
  destruct (extractVariableValue l x) eqn:E; [|reflexivity].
  exfalso. apply Hl, H; [apply elem_of_cons; now left | congruence].
Qed.

(** C2.  The lookup in a freshly built index and the second version (the
    cursor line first, then the plain scan) return the same value for a
    word of a document outside Robot Framework when the name is no member
    of [Object.prototype], every line that yields a value for the name
    lists it among its assigned names, and the cursor line yields nothing
    or the value of the first line that yields one. *)
Theorem scan_variants_agree
        (document : TextDocument) (position : Position) (x : jsstr)
        (now : Z) (st : Provider) (lineText : jsstr) :
  validWord x = Some x ->
  isRobot document = false ->
  inPrototype x = false ->
  assignmentsFresh st document now = false ->
  lines document !! line position = Some lineText ->
  (forall l, l ∈ lines document -> extractVariableValue l x <> None ->
             Some x ∈ listedNames false l) ->
  extractVariableValue lineText x = None
  \/ extractVariableValue lineText x
     = Legacy.findVariableAssignment document x ->
  exists r,
    Legacy.resolveValue document position x = Normal r
    /\ fst (findVariableAssignmentEfficient document x now st)
       = option_map VString r
    /\ r = Legacy.findVariableAssignment document x.
Proof.
  intros _ Hrobot Hproto Hfresh Hline Hlisted Hcursor.
  exists (Legacy.findVariableAssignment document x).
  split; [|split; [|reflexivity]].
  - unfold Legacy.resolveValue. rewrite Hline.
    destruct (extractVariableValue lineText x) as [v|] eqn:E;
      [|reflexivity].
    rewrite (extractVariableValue_truthy _ _ _ E).
    destruct Hcursor as [|<-]; [discriminate | reflexivity].
  - unfold findVariableAssignmentEfficient, buildVariableAssignmentCache.
    rewrite Hfresh. simpl fst.
    rewrite lookup_scanDocument, Hproto, Hrobot.
    now rewrite firstRecorded_firstAssignment.
Qed.

Lemma scan_variants_agree_witness :
  exists r,
    Legacy.resolveValue twiceSample (at_ 0 0) (str "x") = Normal r
    /\ fst (findVariableAssignmentEfficient twiceSample (str "x") 7
                                           newProvider)
       = option_map VString r
    /\ r = Legacy.findVariableAssignment twiceSample (str "x").
Proof.
  apply (scan_variants_agree twiceSample (at_ 0 0) (str "x") 7 newProvider
                             (str "y = 1")).
  - reflexivity.
  - reflexivity.
  - reflexivity.
  - reflexivity.
  - reflexivity.
  - intros l Hl. vm_compute in Hl.
    repeat (apply elem_of_cons in Hl as [->|Hl]);
      [| | |now apply elem_of_nil in Hl].
    + intros H. now destruct H.
    + intros _. vm_compute. apply elem_of_cons. now left.
    + intros _. vm_compute. apply elem_of_cons. now left.
  - now left.
Defined.

(** The two versions disagree on a file that assigns [max] only, and on a
    file with two assignments when the cursor is on the second. *)
Lemma scan_variants_counterexample :
  (fst (findVariableAssignmentEfficient longerSample (str "x") 0 newProvider)
   = None
   /\ Legacy.resolveValue longerSample (at_ 0 0) (str "x")
      = Normal (Some (str "v")))
  /\ (fst (findVariableAssignmentEfficient twiceSample (str "x") 0
                                          newProvider)
      = Some (VString (str "a"))
      /\ Legacy.resolveValue twiceSample (at_ 2 0) (str "x")
         = Normal (Some (str "b"))).
Proof.
  assert (Hbuild : forall document,
             fst (findVariableAssignmentEfficient document (str "x") 0
                                                  newProvider)
             = lookupAssignment (scanDocument document) (str "x")).
  { intros document.
    unfold findVariableAssignmentEfficient, buildVariableAssignmentCache.
    now change (assignmentsFresh newProvider document 0) with false. }
  rewrite !Hbuild, !lookup_scanDocument. repeat split.
Qed.

(** ** The Metadata Store Accessor *)

(** C7.  [loadMetadata] never raises.  On a call that the cache does not
    answer, it returns nothing when no file exists at the path, and it
    logs the failure and returns nothing when the file cannot be read or
    its text is not JSON. *)
Theorem loadMetadata_never_raises
        (h : Host) (metadataFile : jsstr) (now : Z) (st : Provider) :
  (exists r st' evs,
      loadMetadata h metadataFile now st = (Normal r, st', evs))
  /\ (metadataFresh st metadataFile now = false ->
      existsSync h metadataFile = false ->
      loadMetadata h metadataFile now st = (Normal None, st, []))
  /\ (metadataFresh st metadataFile now = false ->
      existsSync h metadataFile = true ->
      readFileSync h metadataFile = None
      \/ (exists raw, readFileSync h metadataFile = Some raw
                      /\ JSON_parse h raw = None) ->
      loadMetadata h metadataFile now st
      = (Normal None, st, [ReadFile metadataFile; ConsoleError])).
Proof.
  unfold loadMetadata, readMetadata. split; [|split].
  - destruct (metadataFresh st metadataFile now); [now eauto|].
    destruct (existsSync h metadataFile); simpl; [|now eauto].
    destruct (readFileSync h metadataFile) as [raw|]; [|now eauto].
    destruct (JSON_parse h raw); now eauto.
  - now intros -> ->.
  - intros -> -> [->|(raw & -> & ->)]; reflexivity.
Qed.

Lemma loadMetadata_never_raises_witness :
  loadMetadata brokenHost samplePath 0 newProvider
  = (Normal None, newProvider, [ReadFile samplePath; ConsoleError]).
Proof.
  apply (proj2 (proj2 (loadMetadata_never_raises
                         brokenHost samplePath 0 newProvider))).
  - reflexivity.
  - reflexivity.
  - right. exists (str "{BTN:"). split; reflexivity.
Defined.

(** No file exists at the path, and the accessor returns the table it
    cached a second ago. *)
Lemma loadMetadata_absent_file_counterexample :
  existsSync emptiedHost samplePath = false
  /\ loadMetadata emptiedHost samplePath 2000 loadedProvider
     = (Normal (Some btnTable), loadedProvider, []).
Proof. split; reflexivity. Qed.

Lemma loadMetadata_fresh h metadataFile now st :
  metadataFresh st metadataFile now = true ->
  loadMetadata h metadataFile now st = (Normal (metadataCache st), st, []).
Proof. unfold loadMetadata. now intros ->. Qed.

Lemma metadataFresh_iff st metadataFile now :
  metadataFresh st metadataFile now = true <->
  (exists table, metadataCache st = Some table)
  /\ metadataCachePath st = Some metadataFile
  /\ (now - lastCacheTime st < cacheTimeout)%Z.
Proof.
  unfold metadataFresh, samePath.
  destruct (metadataCache st) as [table|].
  - rewrite andb_true_iff, bool_decide_eq_true, Z.ltb_lt. split.
    + intros [? ?]. eauto.
    + now intros (_ & ? & ?).
  - split; [discriminate | now intros [[? [=]] _]].
Qed.

(** C6.  While a table cached for the path at time [t] is less than
    [cacheTimeout] old, every call for the path returns it, leaves the
    state alone and reads no file.  A call at or past the window goes to
    the disk: it reads the file if one exists and returns nothing without a
    read otherwise. *)
Theorem metadata_cache_window
        (h : Host) (metadataFile : jsstr) (table : gmap jsstr Descriptor)
        (t : Z) (st : Provider) :
  metadataCache st = Some table ->
  metadataCachePath st = Some metadataFile ->
  lastCacheTime st = t ->
  (forall times,
      Forall (fun t' => (t' - t < cacheTimeout)%Z) times ->
      loadMetadataAt h metadataFile times st
      = (map (fun _ => Normal (Some table)) times, st, []))
  /\ (forall t',
        (cacheTimeout <= t' - t)%Z -> existsSync h metadataFile = true ->
        exists r st' evs,
          loadMetadata h metadataFile t' st
          = (Normal r, st', ReadFile metadataFile :: evs)
          /\ forall raw parsed,
               readFileSync h metadataFile = Some raw ->
               JSON_parse h raw = Some parsed ->
               r = match parsed with JFalsy => None | JTable m => Some m end
               /\ metadataCache st' = r /\ lastCacheTime st' = t'
               /\ evs = [])
  /\ (forall t',
        (cacheTimeout <= t' - t)%Z -> existsSync h metadataFile = false ->
        loadMetadata h metadataFile t' st = (Normal None, st, [])).
Proof.
  intros Hcache Hpath Htime. split; [|split].
  - induction 1 as [|t' times Ht' _ IH]; [reflexivity|].
    simpl. rewrite loadMetadata_fresh.
    + now rewrite IH, Hcache.
    + apply metadataFresh_iff. rewrite Htime. eauto.
  - intros t' Hlate Hexists.
    assert (Hstale : metadataFresh st metadataFile t' = false).
    { apply not_true_iff_false. intros (_ & _ & Hlt)%metadataFresh_iff.
      rewrite Htime in Hlt. lia. }
    unfold loadMetadata, readMetadata. rewrite Hstale, Hexists. simpl.
    destruct (readFileSync h metadataFile) as [raw|];
      [|eexists _, _, _; split; [reflexivity | discriminate]].
    destruct (JSON_parse h raw) as [parsed|] eqn:Hparse;
      eexists _, _, _; (split; [reflexivity|]);
      intros raw' parsed' [= <-] Hp; rewrite Hparse in Hp;
      [|discriminate].
    injection Hp as <-. now repeat split.
  - intros t' Hlate Hexists.
    assert (Hstale : metadataFresh st metadataFile t' = false).
    { apply not_true_iff_false. intros (_ & _ & Hlt)%metadataFresh_iff.
      rewrite Htime in Hlt. lia. }
    unfold loadMetadata. now rewrite Hstale, Hexists.
Qed.

Lemma metadata_cache_window_witness :
  loadMetadataAt sampleHost samplePath [1000; 3500; 5999]%Z loadedProvider
  = ([Normal (Some btnTable); Normal (Some btnTable);
      Normal (Some btnTable)], loadedProvider, []).
Proof.
  apply (proj1 (metadata_cache_window sampleHost samplePath btnTable 1000
                                      loadedProvider eq_refl eq_refl eq_refl)).
  repeat constructor; unfold cacheTimeout; lia.
Defined.

(** The window has passed and the file is gone: the call reads nothing. *)
Lemma metadata_reread_counterexample :
  (cacheTimeout <= 6000 - lastCacheTime loadedProvider)%Z
  /\ metadataCache loadedProvider = Some btnTable
  /\ metadataCachePath loadedProvider = Some samplePath
  /\ loadMetadata emptiedHost samplePath 6000 loadedProvider
     = (Normal None, loadedProvider, []).
Proof. repeat split. unfold cacheTimeout. simpl. lia. Qed.

(** ** The Resolution Orchestrator *)

Lemma fieldMatches_differs (f : option jsstr) (actualValue : jsval) :
  (forall v, actualValue = VString v -> f <> Some v) ->
  fieldMatches f actualValue = false.
Proof.
  intros H. unfold fieldMatches.
  destruct f as [s|], actualValue as [a|]; try reflexivity.
  rewrite bool_decide_eq_false_2; [apply andb_false_r|].
  intros ->. now apply (H a).
Qed.

(** C4.  [provideHover] returns no hover when the workspace has no root,
    when the metadata file is absent, when the loaded table has no entry
    for the name at the cursor, when the resolved value equals neither the
    [xpath] nor the [css] of the entry, and when the photo of the entry
    does not exist.  With no root or no metadata file the call stops at
    once and leaves the state alone.  With no entry for the name it stops
    at line 228, in the state left by [loadMetadata], only if the name is
    no member of [Object.prototype]: for a member, line 227 reads the
    inherited value, the call goes on to [findVariableAssignmentEfficient]
    and ends in the state that call leaves.  For [constructor] in
    [prototypeSample] that state holds a rebuilt index; for [x] in
    [longerSample], which the table lacks as well, the index is not
    touched. *)
Theorem resolve_none_conditions :
  (forall (h : Host) (document : TextDocument) (position : Position)
          (nowMeta nowIndex : Z) (st : Provider),
      let result := provideHover h document position nowMeta nowIndex st in
      (workspaceFolder h = None ->
       hoverOf result = None /\ stateOf result = st)
      /\ (forall root,
            workspaceFolder h = Some root ->
            existsSync h (metadataFileOf h root) = false ->
            hoverOf result = None /\ stateOf result = st)
      /\ (forall root x metadata st1 evs,
            getVariableAtPosition document position = Normal (Some x) ->
            workspaceFolder h = Some root ->
            existsSync h (metadataFileOf h root) = true ->
            loadMetadata h (metadataFileOf h root) nowMeta st
            = (Normal (Some metadata), st1, evs) ->
            (metadata !! x = None ->
             hoverOf result = None
             /\ (inPrototype x = false -> stateOf result = st1)
             /\ (inPrototype x = true ->
                 stateOf result
                 = snd (findVariableAssignmentEfficient
                          document x nowIndex st1)))
            /\ (forall d actualValue st2,
                  metadata !! x = Some d ->
                  findVariableAssignmentEfficient document x nowIndex st1
                  = (Some actualValue, st2) ->
                  ((forall v, actualValue = VString v ->
                              xpath d <> Some v /\ css d <> Some v) ->
                   hoverOf result = None)
                  /\ (forall photoName,
                        photo d = Some photoName ->
                        existsSync h (path_join h (photosDirOf h root)
                                                photoName)
                        = false ->
                        hoverOf result = None))))
  /\ (let loaded :=
        snd (fst (loadMetadata sampleHost samplePath 10 newProvider)) in
      let failing :=
        provideHover sampleHost prototypeSample (at_ 0 1) 10 20 newProvider in
      let stopped :=
        provideHover sampleHost longerSample (at_ 0 1) 10 20 newProvider in
      getVariableAtPosition prototypeSample (at_ 0 1)
      = Normal (Some (str "constructor"))
      /\ btnTable !! str "constructor" = None
      /\ hoverOf failing = None
      /\ variableAssignmentCachePath loaded = None
      /\ variableAssignmentCachePath (stateOf failing)
         = Some (fsPath prototypeSample)
      /\ variableAssignmentCacheTime (stateOf failing) = 20%Z
      /\ stateOf failing <> loaded
      /\ getVariableAtPosition longerSample (at_ 0 1)
         = Normal (Some (str "x"))
      /\ btnTable !! str "x" = None
      /\ hoverOf stopped = None
      /\ stateOf stopped = loaded).
Proof.
  split.
  - intros h document position nowMeta nowIndex st result. subst result.
    unfold provideHover, hoverOf, stateOf.
    split; [|split].
    + intros ->. now destruct (getVariableAtPosition document position)
        as [[x|]|].
    + intros root -> ->.
      now destruct (getVariableAtPosition document position) as [[x|]|].
    + intros root x metadata st1 evs -> -> -> Hload.
      simpl negb. cbv iota. rewrite Hload. split.
      * intros Hx. unfold js_get. rewrite Hx.
        destruct (inPrototype x); [|now repeat split].
        destruct (findVariableAssignmentEfficient document x nowIndex st1)
          as [[actualValue|] st2]; repeat split; discriminate.
      * intros d actualValue st2 Hd Hactual. unfold js_get.
        rewrite Hd, Hactual. unfold present. split.
        -- intros Hdiff. unfold hasMatchingValue. simpl field.
           rewrite !fieldMatches_differs; [reflexivity|..];
             intros v Hv; now apply Hdiff.
        -- intros photoName Hphoto Hmissing.
           destruct (hasMatchingValue (Own d) actualValue); [|reflexivity].
           simpl. now rewrite Hphoto, Hmissing.
  - cbv zeta.
    assert (Hfailing :
              provideHover sampleHost prototypeSample (at_ 0 1) 10 20
                           newProvider
              = (None,
                 snd (buildVariableAssignmentCache
                        prototypeSample 20
                        (snd (fst (loadMetadata sampleHost samplePath 10
                                                newProvider)))),
                 [ReadFile samplePath])).
    { vm_compute. reflexivity. }
    assert (Hstopped :
              provideHover sampleHost longerSample (at_ 0 1) 10 20
                           newProvider
              = (None,
                 snd (fst (loadMetadata sampleHost samplePath 10
                                        newProvider)),
                 [ReadFile samplePath])).
    { vm_compute. reflexivity. }
    rewrite Hfailing, Hstopped. unfold hoverOf, stateOf. simpl fst. simpl snd.
    repeat split; try reflexivity; try (now apply lookup_singleton_ne).
    intros H. apply (f_equal variableAssignmentCachePath) in H.
    discriminate H.
Qed.

Lemma resolve_none_conditions_witness :
  hoverOf (provideHover sampleHost otherSample (at_ 0 1) 10 20 newProvider)
  = None.
Proof.
  refine (proj1 (proj2 (proj2 (proj2
            (proj1 resolve_none_conditions
                   sampleHost otherSample (at_ 0 1) 10%Z 20%Z newProvider))
            (str "/w") (str "BTN") btnTable _ _ eq_refl eq_refl eq_refl
            eq_refl)
            btnDescriptor (VString (str "//a")) _ _ _) _).
  - reflexivity.
  - vm_compute. reflexivity.
  - intros v [= <-]. split; discriminate.
Defined.

(** ** The assignment pattern on a line *)

Lemma wordChar_plain (c : ascii) :
  isWordChar c = true -> isSpace c = false /\ Ascii.eqb c "=" = false.
Proof.
  destruct c as [[] [] [] [] [] [] [] []]; vm_compute; intuition congruence.
Qed.

(** The assignment pattern at the head of [s]: a word, white space and
    [=]. *)
Lemma run_assignment_inv (pos : nat) (s : jsstr) (f : found) :
  run assignmentRegex [] None pos s = Some f ->
  exists name ws rest,
    isWord name = true /\ forallb isSpace ws = true
    /\ s = name ++ ws ++ "="%char :: rest
    /\ f = Found (pos + length name + length ws + 1) rest (Some name).
Proof.
  destruct s as [|c t]; [discriminate|].
  change (run assignmentRegex [] None pos (c :: t))
    with (if isWordStart c
          then greedy isWordChar
                      (run [Close; Star isSpace; Lit "="] (c :: t) None)
                      (S pos) t
          else None).
  destruct (isWordStart c) eqn:Ec; [|discriminate].
  rewrite greedy_commit.
  - change (run [Close; Star isSpace; Lit "="] (c :: t) None
                (S pos + length (leading isWordChar t))
                (beyond isWordChar t))
      with (run [Star isSpace; Lit "="] (c :: t)
                (Some (take (length (c :: t)
                             - length (beyond isWordChar t)) (c :: t)))
                (S pos + length (leading isWordChar t))
                (beyond isWordChar t)).
    rewrite run_star_lit by reflexivity.
    destruct (beyond isSpace (beyond isWordChar t)) as [|a rest] eqn:E;
      [discriminate|].
    destruct (Ascii.eqb a "=") eqn:Ea; [|discriminate].
    apply Ascii.eqb_eq in Ea as ->. intros [= <-].
    exists (c :: leading isWordChar t),
      (leading isSpace (beyond isWordChar t)), rest.
    split; [simpl; now rewrite Ec, leading_all|].
    split; [apply leading_all|]. split.
    + simpl. f_equal. rewrite <- E, <- leading_beyond.
      apply leading_beyond.
    + f_equal; [simpl; lia|]. f_equal.
      rewrite (leading_beyond isWordChar t) at 1 3.
      simpl length. rewrite length_app.
      replace (S (length (leading isWordChar t)
                  + length (beyond isWordChar t))
               - length (beyond isWordChar t))
        with (S (length (leading isWordChar t))) by lia.
      simpl. f_equal. apply take_app_length.
  - intros pos' a s' Ha. destruct (wordChar_plain a Ha) as [Hs He].
    change (run [Close; Star isSpace; Lit "="] (c :: t) None pos' (a :: s'))
      with (run [Star isSpace; Lit "="] (c :: t)
                (Some (take (length (c :: t) - length (a :: s')) (c :: t)))
                pos' (a :: s')).
    rewrite run_star_lit by reflexivity. simpl. now rewrite Hs, He.
Qed.

Lemma wordStart_wordChar (c : ascii) :
  isWordStart c = true -> isWordChar c = true.
Proof.
  unfold isWordStart, isWordChar, isNameChar.
  intros [H|H]%orb_true_iff; rewrite H; simpl;
    [reflexivity | apply orb_true_r].
Qed.

Lemma isWord_chars (name : jsstr) (c : ascii) :
  isWord name = true -> c ∈ name -> isWordChar c = true.
Proof.
  destruct name as [|a cs]; [discriminate|]. simpl.
  intros [Ha Hcs]%andb_true_iff. rewrite forallb_forall in Hcs.
  intros [->|Hin]%elem_of_cons.
  - now apply wordStart_wordChar.
  - apply Hcs. now apply list_elem_of_In.
Qed.

(** A word, white space and [=] at the head of [s]: the pattern takes
    them. *)
Lemma run_assignment_intro (pos : nat) (name ws rest : jsstr) :
  isWord name = true -> forallb isSpace ws = true ->
  run assignmentRegex [] None pos (name ++ ws ++ "="%char :: rest)
  = Some (Found (pos + length name + length ws + 1) rest (Some name)).
Proof.
  intros Hn Hws. destruct name as [|c cs]; [discriminate|].
  simpl in Hn. apply andb_true_iff in Hn as [Hc Hcs].
  assert (Hlead : leading isWordChar (cs ++ ws ++ "="%char :: rest) = cs
                  /\ beyond isWordChar (cs ++ ws ++ "="%char :: rest)
                     = ws ++ "="%char :: rest).
  { destruct ws as [|a ws'].
    - simpl. now apply leading_app.
    - simpl in Hws. apply andb_true_iff in Hws as [Ha _].
      simpl. apply leading_app; [assumption|].
      destruct (isWordChar a) eqn:E; [|reflexivity].
      apply wordChar_plain in E as [E _]. congruence. }
  destruct Hlead as [Hl Hb].
  destruct (leading_app isSpace ws rest "="%char Hws eq_refl) as [Hl2 Hb2].
  remember (cs ++ ws ++ "="%char :: rest) as t eqn:Ht.
  change (run assignmentRegex [] None pos
              ((c :: cs) ++ ws ++ "="%char :: rest))
    with (run assignmentRegex [] None pos
              (c :: (cs ++ ws ++ "="%char :: rest))).
  rewrite <- Ht.
  change (run assignmentRegex [] None pos (c :: t))
    with (if isWordStart c
          then greedy isWordChar
                      (run [Close; Star isSpace; Lit "="] (c :: t) None)
                      (S pos) t
          else None).
  rewrite Hc, greedy_commit.
  - rewrite Hl, Hb.
    change (run [Close; Star isSpace; Lit "="] (c :: t) None
                (S pos + length cs) (ws ++ "="%char :: rest))
      with (run [Star isSpace; Lit "="] (c :: t)
                (Some (take (length (c :: t)
                             - length (ws ++ "="%char :: rest)) (c :: t)))
                (S pos + length cs) (ws ++ "="%char :: rest)).
    rewrite run_star_lit by reflexivity. rewrite Hl2, Hb2.
    simpl. f_equal. f_equal; [lia|]. f_equal.
    rewrite Ht, !length_app. simpl length.
    replace (S (length cs + (length ws + S (length rest)))
             - (length ws + S (length rest)))
      with (S (length cs)) by lia.
    simpl. f_equal. apply take_app_length.
  - intros pos' a s' Ha. destruct (wordChar_plain a Ha) as [Hs He].
    change (run [Close; Star isSpace; Lit "="] (c :: t) None pos' (a :: s'))
      with (run [Star isSpace; Lit "="] (c :: t)
                (Some (take (length (c :: t) - length (a :: s')) (c :: t)))
                pos' (a :: s')).
    rewrite run_star_lit by reflexivity. simpl. now rewrite Hs, He.
Qed.

(** The loop over [exec] reaches a match at offset [i] when no match that
    starts further left ends behind [i]. *)
Lemma rounds_reach (r : list item) (lineText : jsstr) (i : nat)
      (f : found) :
  progressing r ->
  run r [] None i (drop i lineText) = Some f ->
  (forall j f', j < i -> run r [] None j (drop j lineText) = Some f' ->
                f_end f' <= i) ->
  forall fuel pos,
    pos <= i -> i <= length lineText -> length lineText - pos < fuel ->
    Result i (f_end f) (f_rest f) (f_group f)
    ∈ rounds fuel r pos (drop pos lineText).
Proof.
  intros Hp Hrun Hcross.
  induction fuel as [|fuel IH]; intros pos Hpos Hi Hfuel; [lia|].
  simpl. destruct (search r pos (drop pos lineText)) as [m|] eqn:E.
  - apply search_Some in E as (k & Hk & Hidx & Hr & Hearly).
    rewrite drop_drop in Hr.
    destruct (decide (pos + k = i)) as [Heq|Hne].
    + rewrite Heq, Hrun in Hr. injection Hr as ->.
      apply elem_of_cons. left. destruct m; simpl in *. congruence.
    + assert (Hlt : pos + k < i).
      { destruct (decide (pos + k < i)); [assumption|].
        specialize (Hearly (i - pos) ltac:(lia)).
        rewrite drop_drop in Hearly.
        replace (pos + (i - pos)) with i in Hearly by lia. congruence. }
      pose proof (Hcross _ _ Hlt Hr) as Hend. simpl in Hend.
      pose proof (Hp _ _ _ Hr) as Hprog. simpl in Hprog.
      apply run_consumes in Hr as (u & Hu & He). simpl in Hu, He.
      apply elem_of_cons. right.
      assert (Hafter : after m = drop (lastIndex m) lineText).
      { rewrite He, <- drop_drop, Hu. now rewrite drop_app_length. }
      rewrite Hafter. apply IH; lia.
  - exfalso.
    pose proof (search_None _ _ _ E (i - pos)) as Hnone.
    rewrite length_drop, drop_drop in Hnone.
    replace (pos + (i - pos)) with i in Hnone by lia.
    rewrite Hrun in Hnone. specialize (Hnone ltac:(lia)). discriminate.
Qed.

(** A match of the assignment pattern that starts in front of a word ends
    in front of it, unless the word goes on to the left. *)
Lemma assignment_ends_before (pre t : jsstr) (c : ascii) (j : nat)
      (f : found) :
  isWordChar c = true ->
  (forall a, last pre = Some a -> isWordChar a = false) ->
  j < length pre ->
  run assignmentRegex [] None j (drop j (pre ++ c :: t)) = Some f ->
  f_end f <= length pre.
Proof.
  intros Hc Hlast Hj Hrun.
  apply run_assignment_inv in Hrun as (n & w & rest & Hn & Hw & Hs & ->).
  simpl.
  destruct (decide (j + length n + length w + 1 <= length pre))
    as [|Hgt]; [assumption|]. exfalso.
  assert (Hat : forall i, (n ++ w ++ "="%char :: rest) !! i
                          = (pre ++ c :: t) !! (j + i)).
  { intros i. rewrite <- Hs. apply lookup_drop. }
  destruct (wordChar_plain c Hc) as [Hspace Heq].
  destruct (decide (length pre - j < length n)) as [Hin|Hout].
  - destruct (lookup_lt_is_Some_2 n (length pre - j - 1) ltac:(lia))
      as [a Ha].
    assert (Hword : isWordChar a = true).
    { apply (isWord_chars n); [assumption|].
      now apply list_elem_of_lookup_2 in Ha. }
    specialize (Hat (length pre - j - 1)).
    rewrite lookup_app_l, Ha in Hat by lia.
    rewrite lookup_app_l in Hat by lia.
    replace (j + (length pre - j - 1)) with (pred (length pre)) in Hat
      by lia.
    rewrite <- last_lookup in Hat. symmetry in Hat.
    apply Hlast in Hat. congruence.
  - specialize (Hat (length pre - j)).
    replace (j + (length pre - j)) with (length pre) in Hat by lia.
    rewrite (list_lookup_middle pre t c) in Hat by reflexivity.
    rewrite lookup_app_r in Hat by lia.
    destruct (decide (length pre - j - length n < length w)) as [Hw'|Hw'].
    + rewrite lookup_app_l in Hat by assumption.
      rewrite forallb_forall in Hw.
      apply list_elem_of_lookup_2, list_elem_of_In, Hw in Hat. congruence.
    + rewrite (list_lookup_middle w rest "="%char) in Hat by lia.
      injection Hat as <-. discriminate.
Qed.

(** A word of its own in front of white space and [=] is listed. *)
Lemma listed_own_word (pre name ws rest : jsstr) :
  isWord name = true -> forallb isSpace ws = true ->
  (forall a, last pre = Some a -> isWordChar a = false) ->
  Some name ∈ listedNames false (pre ++ name ++ ws ++ "="%char :: rest).
Proof.
  intros Hn Hws Hlast. unfold listedNames, execAll.
  set (lineText := pre ++ name ++ ws ++ "="%char :: rest).
  assert (Hrun : run assignmentRegex [] None (length pre)
                     (drop (length pre) lineText)
                 = Some (Found (length pre + length name + length ws + 1)
                               rest (Some name))).
  { subst lineText. rewrite drop_app_length.
    now apply run_assignment_intro. }
  assert (Hcross : forall j f',
             j < length pre ->
             run assignmentRegex [] None j (drop j lineText) = Some f' ->
             f_end f' <= length pre).
  { intros j f' Hj Hf'. subst lineText.
    destruct name as [|c cs]; [discriminate|].
    simpl in Hn. apply andb_true_iff in Hn as [Hc _].
    apply (assignment_ends_before pre (cs ++ ws ++ "="%char :: rest) c j);
      [now apply wordStart_wordChar | assumption | assumption | exact Hf']. }
  pose proof (rounds_reach assignmentRegex lineText (length pre) _
                           progressing_assignmentRegex Hrun Hcross
                           (S (length lineText)) 0) as Hin.
  simpl drop in Hin.
  assert (Hlen : length pre <= length lineText)
    by (subst lineText; rewrite length_app; lia).
  specialize (Hin ltac:(lia) Hlen ltac:(lia)).
  apply list_elem_of_In. apply list_elem_of_In in Hin.
  now apply (in_map group1) in Hin.
Qed.

(** Lines that list the name without a value for it, or do not list it,
    leave the index without an entry for it. *)
Lemma firstRecorded_skip_listed robot (before after : list jsstr)
      (x : jsstr) :
  (forall l, l ∈ before -> Some x ∈ listedNames robot l ->
             extractor robot l x = None) ->
  firstRecorded robot (before ++ after) x = firstRecorded robot after x.
Proof.
  induction before as [|l before IH]; intros H; simpl; [reflexivity|].
  rewrite IH by (intros l' Hl'; apply H; apply elem_of_cons; now right).
  case_bool_decide as Hl; [|reflexivity].
  now rewrite (H l) by (try assumption; apply elem_of_cons; now left).
Qed.

(** The line that holds the assignment of the XPath to [BTN], with
    [BTN] a word of its own and no double-quoted assignment to [BTN]
    further left, lists [BTN] and yields the XPath. *)
Lemma btnLine_recorded (pre post : jsstr) :
  (forall c, last pre = Some c -> isWordChar c = false) ->
  (forall j w, j < length pre ->
               ~ assignsAt dquote (pre ++ btnLine ++ post) (str "BTN") j w) ->
  Some (str "BTN") ∈ listedNames false (pre ++ btnLine ++ post)
  /\ extractVariableValue (pre ++ btnLine ++ post) (str "BTN")
     = Some (str "//button[1]").
Proof.
  intros Hlast Hleft. split.
  - apply (listed_own_word pre (str "BTN") (str " ")
                           (" "%char :: quoted dquote "//button[1]" ++ post));
      [reflexivity | reflexivity | assumption].
  - rewrite extractVariableValue_eq.
    assert (Hcap : capturedBy dquote (pre ++ btnLine ++ post) (str "BTN")
                   = Some (str "//button[1]")).
    { apply capturedBy_iff.
      - now left.
      - absent.
      - split; [discriminate|]. exists (length pre). split; [|exact Hleft].
        exists pre, (str " "), (str " "), post.
        repeat split; try reflexivity. absent. }
    now rewrite Hcap.
Qed.

(** C5.  The cursor is on [BTN] in a document outside Robot Framework; the
    table maps [BTN] to the descriptor with tag [button], XPath
    [//button[1]] and photo [btn.png]; a line of the document holds the
    assignment of that XPath to [BTN], between double quotes, with [BTN] a
    word of its own and no double-quoted assignment to [BTN] further left
    on the line; no line above both lists [BTN] and yields a value for it;
    the call rebuilds the index; the photo exists in the metadata
    directory.  Then [provideHover] returns the hover with the image, the
    tag and the XPath, and with neither a text nor a CSS block. *)
Theorem button_hover
        (h : Host) (document : TextDocument) (position : Position)
        (nowMeta nowIndex : Z) (st st1 : Provider) (evs : list event)
        (root : jsstr) (table : gmap jsstr Descriptor)
        (above below : list jsstr) (pre post : jsstr) :
  isRobot document = false ->
  position.(line) < length (lines document) ->
  wordAt document position = Some (str "BTN") ->
  workspaceFolder h = Some root ->
  existsSync h (metadataFileOf h root) = true ->
  loadMetadata h (metadataFileOf h root) nowMeta st
  = (Normal (Some table), st1, evs) ->
  table !! str "BTN" = Some btnDescriptor ->
  lines document = above ++ (pre ++ btnLine ++ post) :: below ->
  (forall c, last pre = Some c -> isWordChar c = false) ->
  (forall j w, j < length pre ->
               ~ assignsAt dquote (pre ++ btnLine ++ post) (str "BTN") j w) ->
  (forall l, l ∈ above -> Some (str "BTN") ∈ listedNames false l ->
             extractVariableValue l (str "BTN") = None) ->
  assignmentsFresh st1 document nowIndex = false ->
  existsSync h (path_join h (photosDirOf h root) (str "btn.png")) = true ->
  hoverOf (provideHover h document position nowMeta nowIndex st)
  = Some [Image (uri_file h (path_join h (photosDirOf h root)
                                       (str "btn.png")));
          TagLine (str "button");
          XPathBlock (str "//button[1]")].
Proof.
  intros Hrobot Hpos Hword Hroot Hfile Hload Hbtn Hlines Hlast Hleft Habove
         Hstale Hphoto.
  unfold provideHover, hoverOf, getVariableAtPosition.
  destruct (lookup_lt_is_Some_2 _ _ Hpos) as [lineText ->].
  rewrite Hrobot, Hword, Hroot, Hfile.
  change (validWord (str "BTN")) with (Some (str "BTN")).
  simpl negb. cbv iota. rewrite Hload.
  unfold js_get. rewrite Hbtn.
  unfold findVariableAssignmentEfficient, buildVariableAssignmentCache.
  rewrite Hstale, lookup_scanDocument, Hrobot, Hlines.
  change (inPrototype (str "BTN")) with false. cbv iota.
  rewrite firstRecorded_skip_listed by exact Habove.
  destruct (btnLine_recorded pre post Hlast Hleft) as [Hlisted Hvalue].
  cbn [firstRecorded].
  rewrite bool_decide_eq_true_2 by exact Hlisted.
  unfold extractor. rewrite Hvalue.
  change (truthy (str "//button[1]")) with true. cbv iota.
  cbn [option_map]. unfold present.
  change (hasMatchingValue (Own btnDescriptor) (VString (str "//button[1]")))
    with true.
  change (field photo (Own btnDescriptor)) with (Some (str "btn.png")).
  cbn [negb]. now rewrite Hphoto.
Qed.

Lemma button_hover_witness :
  hoverOf (provideHover sampleHost constSample (at_ 2 7) 10 20 newProvider)
  = Some [Image (str "file:///w/.photos/btn.png");
          TagLine (str "button");
          XPathBlock (str "//button[1]")].
Proof.
  refine (button_hover sampleHost constSample (at_ 2 7) 10 20 newProvider
                       _ _ (str "/w") btnTable [str "// the page"]
                       [str "click(BTN);"] (str "const ") (str ";")
                       eq_refl _ eq_refl eq_refl eq_refl eq_refl _ eq_refl
                       _ _ _ eq_refl eq_refl).
  - simpl. lia.
  - vm_compute. reflexivity.
  - intros c [= <-]. reflexivity.
  - intros j w Hj (p & ws1 & ws2 & po & Hl & Hlen & _).
    subst j. unfold assignment in Hl.
    do 6 (destruct p as [|? p]; [discriminate Hl|]).
    simpl in Hj. lia.
  - intros l [->|Hl%elem_of_nil]%elem_of_cons; [reflexivity | easy].
Defined.

(** In each of these calls the table maps [BTN] to the descriptor, the
    document holds the assignment and the photo exists, and none of them
    gives a hover: a line above assigns another value to [BTN], or the
    index of the path is young and was built before the assignment was
    there, or the assignment is the tail of one to [myBTN], or its line
    assigns the empty literal to [BTN] first, or the document is a Robot
    Framework file, or the cursor is on another word. *)
Lemma button_hover_counterexample :
  btnTable !! str "BTN" = Some btnDescriptor
  /\ existsSync sampleHost (str "/w/.photos/btn.png") = true
  /\ (btnLine ∈ lines shadowedSample
      /\ hoverOf (provideHover sampleHost shadowedSample (at_ 2 7) 10 20
                               newProvider) = None)
  /\ (btnLine ∈ lines btnSample
      /\ hoverOf (provideHover sampleHost btnSample (at_ 2 7) 10 20
                               staleProvider) = None)
  /\ ((exists pre post, lines gluedSample !! 0 = Some (pre ++ btnLine ++ post))
      /\ hoverOf (provideHover sampleHost gluedSample (at_ 1 7) 10 20
                               newProvider) = None)
  /\ ((exists pre post,
          lines emptyFirstSample !! 0 = Some (pre ++ btnLine ++ post))
      /\ hoverOf (provideHover sampleHost emptyFirstSample (at_ 1 7) 10 20
                               newProvider) = None)
  /\ (btnLine ∈ lines robotBtnSample
      /\ hoverOf (provideHover sampleHost robotBtnSample (at_ 0 1) 10 20
                               newProvider) = None)
  /\ (btnLine ∈ lines clickSample
      /\ hoverOf (provideHover sampleHost clickSample (at_ 2 1) 10 20
                               newProvider) = None).
Proof.
  split; [reflexivity|]. split; [reflexivity|].
  repeat split; try (vm_compute; reflexivity).
  - apply elem_of_cons. right. apply elem_of_cons. now left.
  - apply elem_of_cons. right. apply elem_of_cons. now left.
  - now exists (str "my"), [].
  - now exists (str "BTN = " ++ [dquote; dquote] ++ str "; "), [].
  - apply elem_of_cons. now left.
  - apply elem_of_cons. right. apply elem_of_cons. now left.
Qed.

(** ** Termination of the two scanning loops *)

(** Neither pattern of the scanning loops matches the empty string, so
    each round moves [lastIndex] forward and the loops end with a failed
    [exec]: any amount of fuel above the length of the line gives the
    rounds of [execAll]. *)
Lemma execAll_robotVarRegex_fuel (lineText : jsstr) (n : nat) :
  rounds (S (length lineText) + n) robotVarRegex 0 lineText
  = execAll robotVarRegex lineText.
Proof. apply (rounds_enough _ progressing_robotVarRegex). lia. Qed.

Lemma execAll_assignmentRegex_fuel (lineText : jsstr) (n : nat) :
  rounds (S (length lineText) + n) assignmentRegex 0 lineText
  = execAll assignmentRegex lineText.
Proof. apply (rounds_enough _ progressing_assignmentRegex). lia. Qed.

(** ** Examples from the specification *)

Example extract_double_quoted :
  extractVariableValue (str "x = " ++ quoted dquote "abc") (str "x")
  = Some (str "abc").
Proof. reflexivity. Qed.

Example extract_back_quoted :
  extractVariableValue (str "let x=`abc`;") (str "x") = Some (str "abc").
Proof. reflexivity. Qed.

Example extract_empty_literal :
  extractVariableValue (str "x = ''") (str "x") = None.
Proof. reflexivity. Qed.

Example extract_robot_trimmed :
  extractRobotVariableValue (str "${FOO}    //div[@id='x']  ") (str "FOO")
  = Some (str "//div[@id='x']").
Proof. reflexivity. Qed.

Example listed_names :
  listedNames false (str "a b = 1; max= 2  y =x")
  = [Some (str "b"); Some (str "max"); Some (str "y")].
Proof. reflexivity. Qed.

Example adjacent_brackets :
  robotVariableAt (str "${A}${B}") 4 = Some (str "A")
  /\ robotVariableAt (str "${A}${B}") 5 = Some (str "B")
  /\ robotVariableAt (str "${A} ${B}") 9 = Some (str "B")
  /\ robotVariableAt (str "${A} ${B}") 10 = None.
Proof. repeat split. Qed.

(** * Further properties of the provider *)

(** ** The scanning loops *)

Module LoopFacts.

(** Every round of a loop is a match of the pattern at its offset, at or
    behind the offset at which the loop started. *)
Lemma rounds_elem (r : list item) (m : result) :
  forall fuel pos s,
    m ∈ rounds fuel r pos s ->
    pos <= index m /\ index m - pos <= length s
    /\ run r [] None (index m) (drop (index m - pos) s)
       = Some (Found (lastIndex m) (after m) (group1 m)).
Proof.
  induction fuel as [|fuel IH]; intros pos s; simpl;
    [now intros ?%elem_of_nil|].
  destruct (search r pos s) as [m0|] eqn:E; [|now intros ?%elem_of_nil].
  apply search_Some in E as (k & Hk & Hi & Hr & _).
  intros [->|Hin]%elem_of_cons.
  - rewrite Hi. replace (pos + k - pos) with k by lia.
    split; [lia|]. split; [lia | assumption].
  - destruct (IH _ _ Hin) as (Hle & Hlen & Hrun).
    apply run_consumes in Hr as (u & Hu & He). simpl in Hu, He.
    assert (Hafter : after m0 = drop (k + length u) s).
    { rewrite <- drop_drop, Hu. now rewrite drop_app_length. }
    assert (Hs : length s = k + length u + length (after m0)).
    { rewrite <- (take_drop k s), Hu, !length_app, length_take. lia. }
    split; [lia|]. split; [lia|].
    rewrite Hafter, drop_drop in Hrun.
    now replace (index m - pos) with (k + length u + (index m - lastIndex m0))
      by lia.
Qed.

(** Each round of a loop over a pattern that cannot match the empty
    string covers a non-empty stretch of the line. *)
Lemma rounds_span (r : list item) (lineText : jsstr) (m : result) :
  progressing r ->
  m ∈ execAll r lineText ->
  index m < lastIndex m <= length lineText.
Proof.
  intros Hp Hin. unfold execAll in Hin.
  apply rounds_elem in Hin as (_ & Hlen & Hrun).
  pose proof (Hp _ _ _ Hrun) as Hlt. simpl in Hlt.
  apply run_consumes in Hrun as (u & Hu & He). simpl in Hu, He.
  split; [assumption|].
  assert (length (drop (index m - 0) lineText)
          = length u + length (after m)) by now rewrite Hu, length_app.
  rewrite length_drop in *. lia.
Qed.

(** The loop makes no more rounds than the line has characters. *)
Lemma rounds_count (r : list item) :
  progressing r ->
  forall fuel pos s, length (rounds fuel r pos s) <= length s.
Proof.
  intros Hp. induction fuel as [|fuel IH]; intros pos s; simpl; [lia|].
  destruct (search r pos s) as [m|] eqn:E; simpl; [|lia].
  pose proof (search_shrinks _ _ _ _ Hp E).
  specialize (IH (lastIndex m) (after m)). lia.
Qed.

End LoopFacts.
Import LoopFacts.

(** X1.  The loops over [exec] in [getVariableAtPosition] and in
    [buildVariableAssignmentCache] end: the patterns cannot match the empty
    string, so every round covers a non-empty stretch of the line, there
    are at most as many rounds as the line has characters, and fuel beyond
    the length of the line does not change the rounds. *)
Theorem scanning_loops_end (r : list item) (lineText : jsstr) :
  r = robotVarRegex \/ r = assignmentRegex ->
  (forall m, m ∈ execAll r lineText ->
             index m < lastIndex m <= length lineText)
  /\ length (execAll r lineText) <= length lineText
  /\ forall n, rounds (S (length lineText) + n) r 0 lineText
               = execAll r lineText.
Proof.
  intros Hr.
  assert (Hp : progressing r)
    by (destruct Hr as [->| ->];
        [apply progressing_robotVarRegex | apply progressing_assignmentRegex]).
  split; [|split].
  - intros m. now apply rounds_span.
  - now apply rounds_count.
  - intros n. apply (rounds_enough _ Hp). lia.
Qed.

Lemma scanning_loops_end_witness :
  (forall m, m ∈ execAll assignmentRegex (str "a = b = 'c'") ->
             index m < lastIndex m <= 11)
  /\ length (execAll assignmentRegex (str "a = b = 'c'")) <= 11
  /\ forall n, rounds (12 + n) assignmentRegex 0 (str "a = b = 'c'")
               = execAll assignmentRegex (str "a = b = 'c'").
Proof.
  apply (scanning_loops_end assignmentRegex (str "a = b = 'c'")).
  now right.
Defined.

(** ** The names the index scan lists *)

(** X2.  Every name the index scan lists on a line outside Robot
    Framework is a word of the family that stands in the line at the
    offset of its round, followed by optional white space and [=]; every
    name it lists on a Robot Framework line is a name of that family that
    stands in the line between [${] and [}]. *)
Theorem listed_names_stand_in_line (lineText : jsstr) (m : result) :
  (m ∈ execAll assignmentRegex lineText ->
   exists name ws pre post,
     group1 m = Some name /\ isWord name = true
     /\ forallb isSpace ws = true
     /\ lineText = pre ++ name ++ ws ++ "="%char :: post
     /\ length pre = index m
     /\ lastIndex m = index m + length name + length ws + 1)
  /\ (m ∈ execAll robotVarRegex lineText ->
      exists name,
        group1 m = Some name /\ occurrence lineText (index m) name
        /\ lastIndex m = index m + length (bracketed name)).
Proof.
  split; intros Hin; apply rounds_elem in Hin as (_ & Hlen & Hrun);
    rewrite Nat.sub_0_r in *.
  - apply run_assignment_inv in Hrun
        as (name & ws & rest & Hn & Hws & Hs & [= He _ Hg]).
    exists name, ws, (take (index m) lineText), rest.
    split; [now symmetry|]. do 2 (split; [assumption|]).
    split; [now rewrite <- Hs, take_drop|].
    split; [rewrite length_take; lia | assumption].
  - assert (Hocc := Hrun).
    apply run_robot in Hrun as (name & rest & Hn & Hs & [= He _ Hg]).
    exists name. split; [now symmetry|]. split; [|exact He].
    apply occurrence_run. exists (after m). rewrite Hocc.
    now rewrite He, <- Hg.
Qed.

Lemma listed_names_stand_in_line_witness :
  exists name ws pre post,
    Some (str "max") = Some name /\ isWord name = true
    /\ forallb isSpace ws = true
    /\ str "max  = 'v'" = pre ++ name ++ ws ++ "="%char :: post
    /\ length pre = 0
    /\ 6 = 0 + length name + length ws + 1.
Proof.
  apply (proj1 (listed_names_stand_in_line
                  (str "max  = 'v'")
                  (Result 0 6 (str " 'v'") (Some (str "max"))))).
  vm_compute. apply elem_of_cons. now left.
Defined.

(** ** What the index holds *)

Lemma firstRecorded_Some robot (ls : list jsstr) (k v : jsstr) :
  firstRecorded robot ls k = Some v ->
  exists lineText,
    lineText ∈ ls /\ Some k ∈ listedNames robot lineText
    /\ extractor robot lineText k = Some v.
Proof.
  induction ls as [|l ls IH]; simpl; [discriminate|].
  assert (Hlater : firstRecorded robot ls k = Some v ->
                   exists lineText,
                     lineText ∈ l :: ls
                     /\ Some k ∈ listedNames robot lineText
                     /\ extractor robot lineText k = Some v).
  { intros (l' & Hl' & H)%IH. exists l'. split; [|assumption].
    apply elem_of_cons. now right. }
  case_bool_decide as Hl; [|exact Hlater].
  destruct (extractor robot l k) as [w|] eqn:E; [|exact Hlater].
  destruct (truthy w); [|exact Hlater].
  intros [= ->]. exists l. split; [apply elem_of_cons; now left|].
  now split.
Qed.

Lemma listed_shape robot (lineText k : jsstr) :
  Some k ∈ listedNames robot lineText ->
  if robot then isName k = true else isWord k = true.
Proof.
  unfold listedNames. intros (m & Hg & Hin)%list_elem_of_fmap.
  apply rounds_elem in Hin as (_ & _ & Hrun). destruct robot.
  - apply run_robot in Hrun as (name & _ & Hn & _ & [= _ _ Hname]).
    congruence.
  - apply run_assignment_inv in Hrun
        as (name & _ & _ & Hn & _ & _ & [= _ _ Hname]).
    congruence.
Qed.

(** X3.  Every entry of a freshly built index comes from a line of the
    document: its name is listed on that line, it is a name of the
    family of the document, it holds no [$] and is no member of
    [Object.prototype], and its value is the non-empty value the extractor
    of the family yields for the name on that line. *)
Theorem index_entries_come_from_lines
        (document : TextDocument) (k v : jsstr) :
  scanDocument document !! k = Some v ->
  v <> [] /\ inPrototype k = false /\ ("$"%char ∉ k)
  /\ (if isRobot document then isName k = true else isWord k = true)
  /\ exists lineText,
      lineText ∈ lines document
      /\ Some k ∈ listedNames (isRobot document) lineText
      /\ extractor (isRobot document) lineText k = Some v.
Proof.
  rewrite scanDocument_lookup.
  destruct (inPrototype k); [discriminate|]. intros Hfirst.
  pose proof (firstRecorded_truthy _ _ _ _ Hfirst) as Hv.
  destruct (firstRecorded_Some _ _ _ _ Hfirst) as (l & Hl & Hlisted & He).
  split; [now destruct v|]. split; [reflexivity|]. split; [|split].
  - intros Hin. unfold extractor in He. destruct (isRobot document).
    + now rewrite extractRobotVariableValue_dollar in He.
    + now rewrite extractVariableValue_dollar in He.
  - exact (listed_shape _ _ _ Hlisted).
  - now exists l.
Qed.

Lemma index_entries_come_from_lines_witness :
  str "//button[1]" <> [] /\ inPrototype (str "BTN") = false
  /\ ("$"%char ∉ str "BTN")
  /\ (if isRobot robotTable then isName (str "BTN") = true
      else isWord (str "BTN") = true)
  /\ exists lineText,
      lineText ∈ lines robotTable
      /\ Some (str "BTN") ∈ listedNames (isRobot robotTable) lineText
      /\ extractor (isRobot robotTable) lineText (str "BTN")
         = Some (str "//button[1]").
Proof.
  apply (index_entries_come_from_lines robotTable (str "BTN")
                                       (str "//button[1]")).
  now rewrite scanDocument_lookup.
Defined.

(** ** The window of the index *)

Lemma assignmentsFresh_iff st document now :
  assignmentsFresh st document now = true <->
  variableAssignmentCachePath st = Some (fsPath document)
  /\ (now - variableAssignmentCacheTime st
      < variableAssignmentCacheTimeout)%Z.
Proof.
  unfold assignmentsFresh, samePath.
  now rewrite andb_true_iff, bool_decide_eq_true, Z.ltb_lt.
Qed.

(** X4.  An index built for a document at time [t] answers every call
    less than 5000 ms later for a document of the same path, whatever that
    document holds by then: the lines are not scanned again, so an edit
    inside the window is not seen. *)
Theorem index_served_within_window
        (document edited : TextDocument) (t t' : Z) (st : Provider) :
  assignmentsFresh st document t = false ->
  fsPath edited = fsPath document ->
  (t' - t < variableAssignmentCacheTimeout)%Z ->
  let st1 := snd (buildVariableAssignmentCache document t st) in
  buildVariableAssignmentCache edited t' st1 = (scanDocument document, st1)
  /\ forall name,
      findVariableAssignmentEfficient edited name t' st1
      = (lookupAssignment (scanDocument document) name, st1).
Proof.
  intros Hstale Hpath Hwindow st1.
  assert (Hst1 : st1 = snd (buildVariableAssignmentCache document t st))
    by reflexivity.
  unfold buildVariableAssignmentCache in Hst1. rewrite Hstale in Hst1.
  simpl in Hst1.
  assert (Hfresh : assignmentsFresh st1 edited t' = true).
  { apply assignmentsFresh_iff. rewrite Hst1, Hpath. now split. }
  assert (Hbuild : buildVariableAssignmentCache edited t' st1
                   = (scanDocument document, st1)).
  { unfold buildVariableAssignmentCache. rewrite Hfresh.
    now rewrite Hst1 at 1. }
  split; [assumption|]. intros name.
  unfold findVariableAssignmentEfficient. now rewrite Hbuild.
Qed.

Lemma index_served_within_window_witness :
  buildVariableAssignmentCache editedSample 5999 indexedProvider
  = (scanDocument twiceSample, indexedProvider)
  /\ forall name,
      findVariableAssignmentEfficient editedSample name 5999 indexedProvider
      = (lookupAssignment (scanDocument twiceSample) name, indexedProvider).
Proof.
  apply (index_served_within_window twiceSample editedSample 1000 5999
                                    newProvider).
  - reflexivity.
  - reflexivity.
  - unfold variableAssignmentCacheTimeout. lia.
Defined.

(** X5.  An index built at time [t] is thrown away and the lines are
    scanned again by the first call that comes 5000 ms later or more, or
    for a document of another path; the index then belongs to that
    document and that time, and the cached metadata stay as they were. *)
Theorem index_rebuilt_outside_window
        (document other : TextDocument) (t t' : Z) (st : Provider) :
  assignmentsFresh st document t = false ->
  fsPath other <> fsPath document
  \/ (variableAssignmentCacheTimeout <= t' - t)%Z ->
  let st1 := snd (buildVariableAssignmentCache document t st) in
  let st2 := snd (buildVariableAssignmentCache other t' st1) in
  fst (buildVariableAssignmentCache other t' st1) = scanDocument other
  /\ variableAssignmentCache st2 = scanDocument other
  /\ variableAssignmentCachePath st2 = Some (fsPath other)
  /\ variableAssignmentCacheTime st2 = t'
  /\ metadataCache st2 = metadataCache st
  /\ metadataCachePath st2 = metadataCachePath st
  /\ lastCacheTime st2 = lastCacheTime st.
Proof.
  intros Hstale Hwhy st1 st2. subst st2.
  assert (Hst1 : st1 = snd (buildVariableAssignmentCache document t st))
    by reflexivity.
  unfold buildVariableAssignmentCache in Hst1. rewrite Hstale in Hst1.
  simpl in Hst1.
  assert (Hagain : assignmentsFresh st1 other t' = false).
  { apply not_true_iff_false. intros [Hp Ht]%assignmentsFresh_iff.
    rewrite Hst1 in Hp, Ht. simpl in Hp, Ht.
    destruct Hwhy as [Hne|Hlate]; [congruence | lia]. }
  unfold buildVariableAssignmentCache. rewrite Hagain. simpl.
  now rewrite Hst1.
Qed.

Lemma index_rebuilt_outside_window_witness :
  fst (buildVariableAssignmentCache editedSample 6000 indexedProvider)
  = scanDocument editedSample.
Proof.
  apply (index_rebuilt_outside_window twiceSample editedSample 1000 6000
                                      newProvider).
  - reflexivity.
  - right. unfold variableAssignmentCacheTimeout. lia.
Defined.

(** ** The window of the metadata *)

(** X6.  A table read from the metadata file at time [t] is what every
    call for the same path returns less than 5000 ms later, without a
    read, whatever has become of the file by then. *)
Theorem metadata_loaded_then_served
        (h h' : Host) (metadataFile raw : jsstr)
        (table : gmap jsstr Descriptor) (t t' : Z) (st : Provider) :
  metadataFresh st metadataFile t = false ->
  existsSync h metadataFile = true ->
  readFileSync h metadataFile = Some raw ->
  JSON_parse h raw = Some (JTable table) ->
  (t' - t < cacheTimeout)%Z ->
  exists st1,
    loadMetadata h metadataFile t st
    = (Normal (Some table), st1, [ReadFile metadataFile])
    /\ loadMetadata h' metadataFile t' st1 = (Normal (Some table), st1, []).
Proof.
  intros Hstale Hexists Hread Hparse Hwindow.
  unfold loadMetadata at 1. unfold readMetadata.
  rewrite Hstale, Hexists, Hread, Hparse. simpl.
  eexists. split; [reflexivity|].
  rewrite loadMetadata_fresh; [reflexivity|].
  apply metadataFresh_iff. simpl. eauto.
Qed.

Lemma metadata_loaded_then_served_witness :
  exists st1,
    loadMetadata sampleHost samplePath 1000 newProvider
    = (Normal (Some btnTable), st1, [ReadFile samplePath])
    /\ loadMetadata emptiedHost samplePath 5999 st1
       = (Normal (Some btnTable), st1, []).
Proof.
  apply (metadata_loaded_then_served sampleHost emptiedHost samplePath
                                     btnJson btnTable 1000 5999 newProvider).
  - reflexivity.
  - reflexivity.
  - reflexivity.
  - reflexivity.
  - unfold cacheTimeout. lia.
Defined.



(** X8.  The cache holds the table of one path: a call for another path
    is not answered from it, even inside the window, and once that call
    has loaded its table the first path is no longer cached either. *)
Theorem metadata_cache_holds_one_path
        (h : Host) (p q raw : jsstr) (table : gmap jsstr Descriptor)
        (now : Z) (st : Provider) :
  metadataCachePath st = Some p -> p <> q ->
  existsSync h q = true ->
  readFileSync h q = Some raw ->
  JSON_parse h raw = Some (JTable table) ->
  exists st1,
    loadMetadata h q now st = (Normal (Some table), st1, [ReadFile q])
    /\ forall later, metadataFresh st1 p later = false.
Proof.
  intros Hp Hne Hexists Hread Hparse.
  assert (Hstale : metadataFresh st q now = false).
  { apply not_true_iff_false. intros (_ & Hq & _)%metadataFresh_iff.
    congruence. }
  unfold loadMetadata, readMetadata.
  rewrite Hstale, Hexists, Hread, Hparse. simpl.
  eexists. split; [reflexivity|]. intros later.
  apply not_true_iff_false. intros (_ & Hq & _)%metadataFresh_iff.
  simpl in Hq. congruence.
Qed.

Lemma metadata_cache_holds_one_path_witness :
  exists st1,
    loadMetadata sampleHost samplePath 1001
                 {| metadataCache := Some ∅;
                    metadataCachePath := Some (str "/v/element_selectors.json");
                    lastCacheTime := 1000;
                    variableAssignmentCache := ∅;
                    variableAssignmentCachePath := None;
                    variableAssignmentCacheTime := 0 |}
    = (Normal (Some btnTable), st1, [ReadFile samplePath])
    /\ forall later,
        metadataFresh st1 (str "/v/element_selectors.json") later = false.
Proof.
  apply (metadata_cache_holds_one_path
           sampleHost (str "/v/element_selectors.json") samplePath btnJson
           btnTable).
  - reflexivity.
  - discriminate.
  - reflexivity.
  - reflexivity.
  - reflexivity.
Defined.

(** ** What a hover tells *)

Lemma fieldMatches_true (f : option jsstr) (actualValue : jsval) :
  fieldMatches f actualValue = true ->
  exists v, actualValue = VString v /\ f = Some v /\ v <> [].
Proof.
  unfold fieldMatches. destruct f as [s|], actualValue as [a|];
    try discriminate.
  intros [Hs ->%bool_decide_eq_true]%andb_true_iff.
  exists a. repeat split. now destruct a.
Qed.

Lemma present_Some h root element actualValue hover evs :
  present h root element actualValue = (Some hover, evs) ->
  exists d v photoName,
    element = Own d /\ actualValue = VString v /\ v <> []
    /\ (xpath d = Some v \/ css d = Some v)
    /\ photo d = Some photoName
    /\ existsSync h (path_join h (photosDirOf h root) photoName) = true
    /\ hover = hoverContent h (path_join h (photosDirOf h root) photoName)
                            (Own d)
    /\ evs = [].
Proof.
  unfold present.
  destruct (hasMatchingValue element actualValue) eqn:Hm; [|discriminate].
  simpl negb. cbv iota.
  destruct element as [d| |]; try discriminate.
  simpl field. destruct (photo d) as [photoName|] eqn:Hp; [|discriminate].
  destruct (existsSync h _) eqn:He; [|discriminate].
  simpl. intros [= <- <-]. exists d.
  unfold hasMatchingValue in Hm. simpl in Hm.
  apply orb_true_iff in Hm as [Hm|Hm];
    apply fieldMatches_true in Hm as (v & -> & Hf & Hv);
    exists v, photoName; repeat split; auto.
Qed.

(** X9.  [provideHover] shows a hover only for a verified selector: the
    table has an entry of its own for the name at the cursor, the value the
    index resolves for the name is a non-empty string equal to the [xpath]
    or to the [css] of that entry, and the photo the entry names exists;
    the hover is the content built from that entry, and it shows the
    resolved value as its XPath or CSS block. *)
Theorem hover_only_for_verified_selector
        (h : Host) (document : TextDocument) (position : Position)
        (nowMeta nowIndex : Z) (st : Provider) (hover : Hover) :
  hoverOf (provideHover h document position nowMeta nowIndex st)
  = Some hover ->
  exists x root metadata st1 evs d v st2 photoName,
    getVariableAtPosition document position = Normal (Some x)
    /\ workspaceFolder h = Some root
    /\ existsSync h (metadataFileOf h root) = true
    /\ loadMetadata h (metadataFileOf h root) nowMeta st
       = (Normal (Some metadata), st1, evs)
    /\ metadata !! x = Some d
    /\ findVariableAssignmentEfficient document x nowIndex st1
       = (Some (VString v), st2)
    /\ v <> [] /\ (xpath d = Some v \/ css d = Some v)
    /\ photo d = Some photoName
    /\ existsSync h (path_join h (photosDirOf h root) photoName) = true
    /\ hover = hoverContent h (path_join h (photosDirOf h root) photoName)
                            (Own d)
    /\ (XPathBlock v ∈ hover \/ CssBlock v ∈ hover)
    /\ provideHover h document position nowMeta nowIndex st
       = (Some hover, st2, evs).
Proof.
  unfold provideHover, hoverOf.
  destruct (getVariableAtPosition document position) as [[x|]|];
    try discriminate.
  destruct (workspaceFolder h) as [root|]; [|discriminate].
  destruct (existsSync h (metadataFileOf h root)) eqn:Hfile; [|discriminate].
  simpl negb. cbv iota.
  destruct (loadMetadata h (metadataFileOf h root) nowMeta st)
    as [[[[metadata|]|] st1] evs] eqn:Hload; try discriminate.
  assert (Hcont :
    forall element,
      fst (fst (match findVariableAssignmentEfficient document x nowIndex st1
                with
                | (None, st2) => (None, st2, evs)
                | (Some actualValue, st2) =>
                    let '(hv, evs') := present h root element actualValue in
                    (hv, st2, evs ++ evs')
                end)) = Some hover ->
      exists d v st2 photoName,
        element = Own d
        /\ findVariableAssignmentEfficient document x nowIndex st1
           = (Some (VString v), st2)
        /\ v <> [] /\ (xpath d = Some v \/ css d = Some v)
        /\ photo d = Some photoName
        /\ existsSync h (path_join h (photosDirOf h root) photoName) = true
        /\ hover = hoverContent h (path_join h (photosDirOf h root)
                                             photoName) (Own d)
        /\ match findVariableAssignmentEfficient document x nowIndex st1
           with
           | (None, st2) => (None, st2, evs)
           | (Some actualValue, st2) =>
               let '(hv, evs') := present h root element actualValue in
               (hv, st2, evs ++ evs')
           end = (Some hover, st2, evs)).
  { intros element.
    destruct (findVariableAssignmentEfficient document x nowIndex st1)
      as [[actualValue|] st2]; [|discriminate].
    destruct (present h root element actualValue) as [hv evs'] eqn:Hp.
    simpl. intros ->.
    apply present_Some in Hp
        as (d & v & photoName & -> & -> & Hv & Hsel & Hph & Hex & -> & ->).
    exists d, v, st2, photoName. rewrite app_nil_r. now repeat split. }
  unfold js_get. destruct (metadata !! x) as [d0|] eqn:Hx.
  - intros (d & v & st2 & photoName & [= <-] & Hfind & Hv & Hsel & Hph
            & Hex & Hhover & Hall)%Hcont.
    exists x, root, metadata, st1, evs, d0, v, st2, photoName.
    repeat (split; [assumption || reflexivity|]).
    split; [|assumption].
    rewrite Hhover. unfold hoverContent, optionalBlock. simpl field.
    assert (Ht : truthy v = true) by now destruct v.
    destruct Hsel as [Hsel|Hsel]; rewrite Hsel, Ht; [left | right];
      rewrite !elem_of_app; [right; right; left | right; right; right];
      apply elem_of_cons; now left.
  - destruct (inPrototype x); [|discriminate].
    intros (d & _ & _ & _ & [=] & _)%Hcont.
Qed.

Lemma hover_only_for_verified_selector_witness :
  exists d v,
    btnTable !! str "BTN" = Some d
    /\ (xpath d = Some v \/ css d = Some v)
    /\ (XPathBlock v ∈ [Image (str "file:///w/.photos/btn.png");
                        TagLine (str "button");
                        XPathBlock (str "//button[1]")]
        \/ CssBlock v ∈ [Image (str "file:///w/.photos/btn.png");
                         TagLine (str "button");
                         XPathBlock (str "//button[1]")]).
Proof.
  destruct (hover_only_for_verified_selector
              sampleHost btnSample (at_ 2 7) 10 20 newProvider
              [Image (str "file:///w/.photos/btn.png");
               TagLine (str "button"); XPathBlock (str "//button[1]")])
    as (x & root & metadata & st1 & evs & d & v & st2 & photoName
        & Hx & Hroot & _ & Hload & Hd & _ & _ & Hsel & _ & _ & _ & Hin & _).
  - vm_compute. reflexivity.
  - injection Hx as <-. injection Hroot as <-.
    injection Hload as <- _ _. now exists d, v.
Defined.

(** X10.  An entry that names no photo never gets a hover: when the
    resolved value equals its [xpath] or [css], joining the photo name to
    the directory throws, and [provideHover] logs the error and returns
    nothing. *)
Theorem entry_without_photo_is_logged
        (h : Host) (document : TextDocument) (position : Position)
        (nowMeta nowIndex : Z) (st st1 st2 : Provider) (evs : list event)
        (root x v : jsstr) (metadata : gmap jsstr Descriptor)
        (d : Descriptor) :
  getVariableAtPosition document position = Normal (Some x) ->
  workspaceFolder h = Some root ->
  existsSync h (metadataFileOf h root) = true ->
  loadMetadata h (metadataFileOf h root) nowMeta st
  = (Normal (Some metadata), st1, evs) ->
  metadata !! x = Some d ->
  findVariableAssignmentEfficient document x nowIndex st1
  = (Some (VString v), st2) ->
  xpath d = Some v \/ css d = Some v ->
  photo d = None ->
  provideHover h document position nowMeta nowIndex st
  = (None, st2, evs ++ [ConsoleError]).
Proof.
  intros Hx Hroot Hfile Hload Hd Hfind Hsel Hphoto.
  assert (Hv : truthy v = true).
  { unfold findVariableAssignmentEfficient in Hfind.
    destruct (buildVariableAssignmentCache document nowIndex st1)
      as [cache st'].
    injection Hfind as Hlook _. unfold lookupAssignment in Hlook.
    destruct (js_get cache x) as [w| |]; try discriminate.
    destruct (truthy w) eqn:T; [|discriminate]. now injection Hlook as <-. }
  unfold provideHover.
  rewrite Hx, Hroot, Hfile. simpl negb. cbv iota.
  rewrite Hload. unfold js_get. rewrite Hd, Hfind.
  unfold present, hasMatchingValue. simpl field. rewrite Hphoto.
  assert (Hm : fieldMatches (xpath d) (VString v)
               || fieldMatches (css d) (VString v) = true).
  { apply orb_true_iff. unfold fieldMatches.
    destruct Hsel as [-> | ->]; [left | right];
      now rewrite Hv, bool_decide_eq_true_2. }
  now rewrite Hm.
Qed.

Lemma entry_without_photo_is_logged_witness :
  exists st2,
    provideHover noPhotoHost otherSample (at_ 0 1) 10 20 newProvider
    = (None, st2, [ReadFile samplePath] ++ [ConsoleError]).
Proof.
  eexists.
  refine (entry_without_photo_is_logged
            noPhotoHost otherSample (at_ 0 1) 10 20 newProvider _ _ _
            (str "/w") (str "BTN") (str "//a") _ noPhotoDescriptor
            eq_refl eq_refl eq_refl eq_refl _ _ _ eq_refl).
  - vm_compute. reflexivity.
  - vm_compute. reflexivity.
  - now left.
Defined.

(** ** The plain scan of the second version *)

(** X11.  [findVariableAssignment] returns the value of the first line,
    from the top, on which the extractor yields one, and nothing exactly
    when no line of the document yields one. *)
Theorem plain_scan_first_line (document : TextDocument) (x : jsstr) :
  (forall v,
      Legacy.findVariableAssignment document x = Some v <->
      exists above lineText below,
        lines document = above ++ lineText :: below
        /\ extractVariableValue lineText x = Some v
        /\ forall l, l ∈ above -> extractVariableValue l x = None)
  /\ (Legacy.findVariableAssignment document x = None <->
      forall l, l ∈ lines document -> extractVariableValue l x = None).
Proof.
  unfold Legacy.findVariableAssignment.
  generalize (lines document). intros ls. split.
  - intros v. induction ls as [|l ls IH]; simpl.
    + split; [discriminate|]. intros (above & ? & ? & H & _).
      now destruct above.
    + destruct (extractVariableValue l x) as [w|] eqn:E.
      * rewrite (extractVariableValue_truthy _ _ _ E). split.
        -- intros [= ->]. exists [], l, ls. repeat split; [assumption|].
           now intros ? ?%elem_of_nil.
        -- intros (above & l' & below & Hls & Hv & Hnone).
           destruct above as [|a above]; simpl in Hls.
           ++ injection Hls as <- _. congruence.
           ++ injection Hls as <- _.
              rewrite Hnone in E by (apply elem_of_cons; now left).
              discriminate.
      * rewrite IH. split.
        -- intros (above & l' & below & -> & Hv & Hnone).
           exists (l :: above), l', below. repeat split; [assumption|].
           intros l0 [->|Hin]%elem_of_cons; [assumption | now apply Hnone].
        -- intros (above & l' & below & Hls & Hv & Hnone).
           destruct above as [|a above]; simpl in Hls.
           ++ injection Hls as <- _. congruence.
           ++ injection Hls as <- ->. exists above, l', below.
              repeat split; [assumption|].
              intros l0 Hin. apply Hnone, elem_of_cons. now right.
  - induction ls as [|l ls IH]; simpl.
    + split; [now intros _ ? ?%elem_of_nil | reflexivity].
    + destruct (extractVariableValue l x) as [w|] eqn:E.
      * rewrite (extractVariableValue_truthy _ _ _ E).
        split; [discriminate|]. intros H.
        rewrite H in E by (apply elem_of_cons; now left). discriminate.
      * rewrite IH. split.
        -- intros H l0 [->|Hin]%elem_of_cons; [assumption | now apply H].
        -- intros H l0 Hin. apply H, elem_of_cons. now right.
Qed.

(** ** The word at the cursor *)

(** X12.  Outside Robot Framework the name at the cursor is the word the
    editor reports there, provided it is a word of the family
    [[a-zA-Z_$][a-zA-Z0-9_$]*]; any other word, and no word, give nothing.
    The first version reads the cursor line before that and throws when
    the document has no such line; the second version does not. *)
Theorem word_at_cursor_validated
        (document : TextDocument) (position : Position) :
  isRobot document = false ->
  let checked :=
    match wordAt document position with
    | Some word => if isWord word then Some word else None
    | None => None
    end in
  Legacy.getVariableAtPosition document position = checked
  /\ getVariableAtPosition document position
     = if bool_decide (line position < length (lines document))
       then Normal checked else Throw.
Proof.
  intros Hrobot checked.
  assert (Hvalid : forall word,
             validWord word = if isWord word then Some word else None).
  { intros word. destruct (isWord word) eqn:W.
    - now apply validWord_isWord.
    - unfold validWord. destruct (test wordRegex word) eqn:T; [|reflexivity].
      assert (validWord word = Some word) by (unfold validWord; now rewrite T).
      apply validWord_isWord in H. congruence. }
  assert (Hlegacy : Legacy.getVariableAtPosition document position = checked).
  { unfold Legacy.getVariableAtPosition, checked.
    destruct (wordAt document position); [apply Hvalid | reflexivity]. }
  split; [assumption|].
  unfold getVariableAtPosition. rewrite Hrobot. case_bool_decide as Hl.
  - destruct (lookup_lt_is_Some_2 _ _ Hl) as [lineText ->].
    unfold checked. destruct (wordAt document position);
      [now rewrite Hvalid | reflexivity].
  - rewrite lookup_ge_None_2; [reflexivity | lia].
Qed.

Lemma word_at_cursor_validated_witness :
  Legacy.getVariableAtPosition btnSample (at_ 7 0) = Some (str "BTN")
  /\ getVariableAtPosition btnSample (at_ 7 0) = Throw.
Proof.
  apply (word_at_cursor_validated btnSample (at_ 7 0)). reflexivity.
Defined.

(** ** The two versions of the provider *)

Lemma loadMetadata_keeps_index h metadataFile now st r st1 evs :
  loadMetadata h metadataFile now st = (r, st1, evs) ->
  variableAssignmentCache st1 = variableAssignmentCache st
  /\ variableAssignmentCachePath st1 = variableAssignmentCachePath st
  /\ variableAssignmentCacheTime st1 = variableAssignmentCacheTime st.
Proof.
  unfold loadMetadata, readMetadata.
  destruct (metadataFresh st metadataFile now); [now intros [= _ <- _]|].
  destruct (existsSync h metadataFile); simpl; [|now intros [= _ <- _]].
  destruct (readFileSync h metadataFile) as [raw|];
    [|now intros [= _ <- _]].
  destruct (JSON_parse h raw); now intros [= _ <- _].
Qed.

Lemma resolved_values_agree
      (document : TextDocument) (position : Position) (x : jsstr)
      (now : Z) (st : Provider) (lineText : jsstr) :
  isRobot document = false ->
  inPrototype x = false ->
  assignmentsFresh st document now = false ->
  lines document !! line position = Some lineText ->
  (forall l, l ∈ lines document -> extractVariableValue l x <> None ->
             Some x ∈ listedNames false l) ->
  extractVariableValue lineText x = None
  \/ extractVariableValue lineText x
     = Legacy.findVariableAssignment document x ->
  exists r,
    Legacy.resolveValue document position x = Normal r
    /\ fst (findVariableAssignmentEfficient document x now st)
       = option_map VString r.
Proof.
  intros Hrobot Hproto Hfresh Hline Hlisted Hcursor.
  exists (Legacy.findVariableAssignment document x). split.
  - unfold Legacy.resolveValue. rewrite Hline.
    destruct (extractVariableValue lineText x) as [v|] eqn:E;
      [|reflexivity].
    rewrite (extractVariableValue_truthy _ _ _ E).
    destruct Hcursor as [|<-]; [discriminate | reflexivity].
  - unfold findVariableAssignmentEfficient, buildVariableAssignmentCache.
    rewrite Hfresh. simpl fst.
    rewrite lookup_scanDocument, Hproto, Hrobot.
    now rewrite firstRecorded_firstAssignment.
Qed.

(** X13.  Both versions of [provideHover] show the same hover, or both
    none, at a cursor of a document outside Robot Framework whose index
    is due for a rebuild, when the word under the cursor is no member of
    [Object.prototype], every line that yields a value for it lists it
    among its assigned names, and the cursor line yields nothing or the
    value of the first line that yields one. *)
Theorem both_versions_same_hover
        (h : Host) (document : TextDocument) (position : Position)
        (nowMeta nowIndex : Z) (st : Provider) (lineText : jsstr) :
  isRobot document = false ->
  lines document !! line position = Some lineText ->
  assignmentsFresh st document nowIndex = false ->
  (forall x,
      wordAt document position = Some x ->
      inPrototype x = false
      /\ (forall l, l ∈ lines document -> extractVariableValue l x <> None ->
                    Some x ∈ listedNames false l)
      /\ (extractVariableValue lineText x = None
          \/ extractVariableValue lineText x
             = Legacy.findVariableAssignment document x)) ->
  hoverOf (provideHover h document position nowMeta nowIndex st)
  = hoverOf (Legacy.provideHover h document position nowMeta st).
Proof.
  intros Hrobot Hline Hstale Hword.
  unfold provideHover, Legacy.provideHover, getVariableAtPosition,
    Legacy.getVariableAtPosition, hoverOf.
  rewrite Hline, Hrobot.
  destruct (wordAt document position) as [word|] eqn:Hw; [|reflexivity].
  destruct (Hword word eq_refl) as (Hproto & Hlisted & Hcursor).
  unfold validWord. destruct (test wordRegex word); [|reflexivity].
  destruct (workspaceFolder h) as [root|]; [|reflexivity].
  destruct (existsSync h (metadataFileOf h root)); [|reflexivity].
  simpl negb. cbv iota.
  destruct (loadMetadata h (metadataFileOf h root) nowMeta st)
    as [[[[metadata|]|] st1] evs] eqn:Hload; try reflexivity.
  destruct (loadMetadata_keeps_index _ _ _ _ _ _ _ Hload) as (_ & Hp & Ht).
  assert (Hstale1 : assignmentsFresh st1 document nowIndex = false)
    by (unfold assignmentsFresh in *; now rewrite Hp, Ht).
  destruct (resolved_values_agree document position word nowIndex st1
              lineText Hrobot Hproto Hstale1 Hline Hlisted Hcursor)
    as (r & -> & Hfind).
  destruct (findVariableAssignmentEfficient document word nowIndex st1)
    as [actual st2].
  simpl in Hfind. subst actual.
  unfold js_get. rewrite Hproto.
  destruct (metadata !! word) as [d|]; [|reflexivity].
  destruct r as [v|]; [|reflexivity]. simpl option_map. cbv iota.
  now destruct (present h root (Own d) (VString v)).
Qed.

Lemma both_versions_same_hover_witness :
  hoverOf (provideHover sampleHost btnSample (at_ 2 7) 10 20 newProvider)
  = hoverOf (Legacy.provideHover sampleHost btnSample (at_ 2 7) 10
                                 newProvider).
Proof.
  apply (both_versions_same_hover sampleHost btnSample (at_ 2 7) 10 20
                                  newProvider (str "click(BTN)")).
  - reflexivity.
  - reflexivity.
  - reflexivity.
  - intros x [= <-]. split; [reflexivity|]. split; [|now left].
    intros l Hl. vm_compute in Hl.
    repeat (apply elem_of_cons in Hl as [->|Hl]);
      [| | |now apply elem_of_nil in Hl].
    + intros H. now destruct H.
    + intros _. vm_compute. apply elem_of_cons. now left.
    + intros H. now destruct H.
Defined.

(** ** The value of a Robot Framework variable *)

Module RobotValueFacts.

Lemma trimStart_beyond (s : jsstr) : trimStart s = beyond isSpace s.
Proof. induction s as [|c s IH]; simpl; [reflexivity | now rewrite IH]. Qed.

Lemma trim_spaces_app (ws t : jsstr) :
  forallb isSpace ws = true -> trim (ws ++ t) = trim t.
Proof.
  intros Hws. unfold trim. do 3 f_equal.
  induction ws as [|a ws IH]; simpl in *; [reflexivity|].
  apply andb_true_iff in Hws as [-> Hws]. now apply IH.
Qed.

Lemma head_rev (l : jsstr) : head (rev l) = last l.
Proof.
  induction l as [|a l IH]; simpl; [reflexivity|].
  destruct l as [|b l]; [reflexivity|].
  simpl in *. destruct (rev l ++ [b]) eqn:E; [|exact IH].
  now destruct (rev l).
Qed.

Lemma last_rev (l : jsstr) : last (rev l) = head l.
Proof. rewrite <- head_rev. now rewrite rev_involutive. Qed.

Lemma head_beyond (p : ascii -> bool) (l : jsstr) (c : ascii) :
  head (beyond p l) = Some c -> p c = false.
Proof.
  destruct (beyond p l) as [|a t] eqn:E; [discriminate|].
  intros [= <-]. exact (beyond_head _ _ _ _ E).
Qed.

Lemma last_beyond (p : ascii -> bool) (l : jsstr) (c : ascii) :
  last (beyond p l) = Some c -> last l = Some c.
Proof.
  induction l as [|a l IH]; simpl; [discriminate|].
  destruct (p a); [|now intros H].
  intros H. specialize (IH H). destruct l; [discriminate | exact IH].
Qed.

(** A trimmed string neither starts nor ends with white space. *)
Lemma trim_ends (s : jsstr) (c : ascii) :
  head (trim s) = Some c \/ last (trim s) = Some c -> isSpace c = false.
Proof.
  unfold trim. rewrite head_rev, last_rev, !trimStart_beyond.
  intros [H|H].
  - apply last_beyond in H. rewrite last_rev in H.
    exact (head_beyond _ _ _ H).
  - exact (head_beyond _ _ _ H).
Qed.

(** [(.+?)$]: the rest of the line, if it has no line terminator. *)
Lemma reluctant_to_end op cap :
  forall t pos,
    reluctant isDot (run [Close; Eoi] op cap) pos t
    = if forallb isDot t
      then Some (Found (pos + length t) [] (Some (take (length op - 0) op)))
      else None.
Proof.
  induction t as [|c t IH]; intros pos; simpl.
  - now rewrite Nat.add_0_r.
  - destruct (isDot c); simpl; [|reflexivity].
    rewrite IH. now rewrite <- Nat.add_succ_comm.
Qed.

Lemma run_rest op cap pos (t : jsstr) :
  run [Open; PlusLazy isDot; Close; Eoi] op cap pos t
  = match t with
    | [] => None
    | _ :: _ =>
        if forallb isDot t
        then Some (Found (pos + length t) [] (Some t)) else None
    end.
Proof.
  destruct t as [|b t]; [reflexivity|].
  change (run [Open; PlusLazy isDot; Close; Eoi] op cap pos (b :: t))
    with (if isDot b
          then reluctant isDot (run [Close; Eoi] (b :: t) cap) (S pos) t
          else None).
  simpl forallb. destruct (isDot b); [|reflexivity].
  rewrite reluctant_to_end. simpl andb.
  destruct (forallb isDot t); [|reflexivity].
  rewrite Nat.sub_0_r, firstn_all. do 2 f_equal. simpl. lia.
Qed.

Lemma greedy_cons {A} (p : ascii -> bool) (k : nat -> jsstr -> option A)
      (pos : nat) (c : ascii) (s : jsstr) :
  greedy p k pos (c :: s)
  = if p c then
      match greedy p k (S pos) s with
      | Some r => Some r
      | None => k pos (c :: s)
      end
    else k pos (c :: s).
Proof. reflexivity. Qed.

(** [\s+] gives white space back until the rest can be captured. *)
Lemma greedy_rest op cap (t : jsstr) :
  t <> [] -> forallb isDot t = true ->
  forall u pos,
    forallb isSpace u = true ->
    exists sp t' e,
      greedy isSpace (run [Open; PlusLazy isDot; Close; Eoi] op cap) pos
             (u ++ t)
      = Some (Found e [] (Some t'))
      /\ u ++ t = sp ++ t' /\ forallb isSpace sp = true /\ t' <> [].
Proof.
  intros Hne Hdot.
  assert (HK : forall pos t,
             run [Open; PlusLazy isDot; Close; Eoi] op cap pos t
             = match t with
               | [] => None
               | _ :: _ =>
                   if forallb isDot t
                   then Some (Found (pos + length t) [] (Some t)) else None
               end) by (intros; apply run_rest).
  set (K := run [Open; PlusLazy isDot; Close; Eoi] op cap) in *.
  assert (Hbase : forall t pos,
             t <> [] -> forallb isDot t = true ->
             exists sp t' e,
               greedy isSpace K pos t = Some (Found e [] (Some t'))
               /\ t = sp ++ t' /\ forallb isSpace sp = true /\ t' <> []).
  { clear t Hne Hdot. induction t as [|c t IH]; intros pos Hne Hdot;
      [congruence|].
    assert (Hhere : K pos (c :: t)
                    = Some (Found (pos + length (c :: t)) [] (Some (c :: t))))
      by (rewrite HK; now rewrite Hdot).
    rewrite greedy_cons. destruct (isSpace c) eqn:Ec.
    - destruct t as [|b t].
      + change (greedy isSpace K (S pos) []) with (K (S pos) []).
        rewrite HK, Hhere.
        exists [], [c], (pos + length [c]). now repeat split.
      + simpl in Hdot. apply andb_true_iff in Hdot as [_ Hdot].
        destruct (IH (S pos) ltac:(discriminate) Hdot)
          as (sp & t' & e & -> & Hsplit & Hsp & Ht').
        exists (c :: sp), t', e. rewrite Hsplit. simpl. rewrite Ec, Hsp.
        now repeat split.
    - rewrite Hhere. exists [], (c :: t), (pos + length (c :: t)).
      now repeat split. }
  induction u as [|a u IH]; intros pos Hu; [now apply Hbase|].
  simpl in Hu. apply andb_true_iff in Hu as [Ha Hu].
  destruct (IH (S pos) Hu) as (sp & t' & e & Hg & Hsplit & Hsp & Ht').
  exists (a :: sp), t', e. simpl app. rewrite greedy_cons, Ha, Hg, Hsplit.
  simpl. rewrite Ha, Hsp. now repeat split.
Qed.

Lemma robotValueRegex_plain (name : jsstr) :
  "$"%char ∉ name ->
  robotValueRegex name
  = map Lit (bracketed name)
    ++ [Plus isSpace; Open; PlusLazy isDot; Close; Eoi].
Proof.
  intros Hplain. unfold robotValueRegex, bracketed.
  rewrite splice_plain by assumption. simpl.
  rewrite map_app. simpl. now rewrite <- app_assoc.
Qed.

Lemma isName_plain (name : jsstr) :
  isName name = true -> "$"%char ∉ name.
Proof. intros Hn Hin. now pose proof (isName_chars _ _ Hn Hin). Qed.

End RobotValueFacts.
Import RobotValueFacts.

(** X14.  For a name of the word family, which holds no pattern operator
    but [$], a value [extractRobotVariableValue] returns is the trimmed
    rest of the line behind [${name}]: the name holds no [$], that rest
    starts with white space, what follows the white space the pattern took
    holds no line terminator, and the value neither starts nor ends with
    white space (it can be empty). *)
Theorem robot_value_is_trimmed_rest (lineText name v : jsstr) :
  isWord name = true ->
  extractRobotVariableValue lineText name = Some v ->
  ("$"%char ∉ name)
  /\ (exists pre ws t,
        lineText = pre ++ bracketed name ++ ws ++ t
        /\ ws <> [] /\ forallb isSpace ws = true
        /\ t <> [] /\ forallb isDot t = true
        /\ v = trim (ws ++ t))
  /\ forall c, head v = Some c \/ last v = Some c -> isSpace c = false.
Proof.
  intros _ H.
  destruct (decide ("$"%char ∈ name)) as [Hin|Hplain];
    [now rewrite extractRobotVariableValue_dollar in H|].
  split; [assumption|].
  unfold extractRobotVariableValue, exec in H.
  destruct (captured (search (robotValueRegex name) 0 lineText))
    as [w|] eqn:Hcap; [|discriminate].
  injection H as <-. split; [|intros c; apply trim_ends].
  apply captured_Some in Hcap as (m & Hm & Hg & Hw).
  apply search_Some in Hm as (k & Hk & _ & Hr & _).
  rewrite robotValueRegex_plain in Hr by assumption.
  destruct (run_literals_inv _ _ _ _ _ _ _ Hr) as [s' Hs'].
  rewrite Hs', run_literals in Hr.
  destruct s' as [|a s']; [discriminate|].
  change (run [Plus isSpace; Open; PlusLazy isDot; Close; Eoi] [] None
              (0 + k + length (bracketed name)) (a :: s'))
    with (if isSpace a
          then greedy isSpace
                      (run [Open; PlusLazy isDot; Close; Eoi] [] None)
                      (S (0 + k + length (bracketed name))) s'
          else None) in Hr.
  destruct (isSpace a) eqn:Ea; [|discriminate].
  apply greedy_inv in Hr as (u & t & -> & Hu & Hr).
  rewrite run_rest in Hr. destruct t as [|b t]; [discriminate|].
  destruct (forallb isDot (b :: t)) eqn:Hdot; [|discriminate].
  injection Hr as _ _ Hcapture. rewrite Hg in Hcapture.
  injection Hcapture as <-.
  exists (take k lineText), (a :: u), (b :: t).
  split; [|split; [discriminate|split; [simpl; now rewrite Ea, Hu|]]].
  - rewrite <- (take_drop k lineText) at 1. now rewrite Hs'.
  - split; [discriminate|]. split; [assumption|].
    symmetry. apply trim_spaces_app. simpl. now rewrite Ea, Hu.
Qed.

Lemma robot_value_is_trimmed_rest_witness :
  ("$"%char ∉ str "FOO")
  /\ (exists pre ws t,
        str "${FOO}    //div[@id='x']  "
        = pre ++ bracketed (str "FOO") ++ ws ++ t
        /\ ws <> [] /\ forallb isSpace ws = true
        /\ t <> [] /\ forallb isDot t = true
        /\ str "//div[@id='x']" = trim (ws ++ t))
  /\ forall c,
      head (str "//div[@id='x']") = Some c
      \/ last (str "//div[@id='x']") = Some c -> isSpace c = false.
Proof.
  apply (robot_value_is_trimmed_rest (str "${FOO}    //div[@id='x']  ")
                                     (str "FOO") (str "//div[@id='x']"));
    reflexivity.
Defined.

(** X15.  When [${name}] stands in a line behind text without [$] and is
    followed by white space and then by at least one more character, none
    of them a line terminator, [extractRobotVariableValue] returns what
    follows, trimmed. *)
Theorem robot_value_of_definition (pre name ws t : jsstr) :
  isName name = true ->
  "$"%char ∉ pre ->
  ws <> [] -> forallb isSpace ws = true ->
  t <> [] -> forallb isDot t = true ->
  extractRobotVariableValue (pre ++ bracketed name ++ ws ++ t) name
  = Some (trim t).
Proof.
  intros Hname Hpre Hws Hspace Ht Hdot.
  pose proof (isName_plain _ Hname) as Hplain.
  unfold extractRobotVariableValue, exec.
  rewrite robotValueRegex_plain by assumption.
  rewrite search_skip.
  - destruct ws as [|a u]; [congruence|].
    simpl in Hspace. apply andb_true_iff in Hspace as [Ha Hu].
    destruct (greedy_rest [] None t Ht Hdot u
                          (S (0 + length pre + length (bracketed name))) Hu)
      as (sp & t' & e & Hg & Hsplit & Hsp & Ht').
    erewrite search_here.
    2:{ rewrite run_literals.
        change (run [Plus isSpace; Open; PlusLazy isDot; Close; Eoi] [] None
                    (0 + length pre + length (bracketed name))
                    ((a :: u) ++ t))
          with (if isSpace a
                then greedy isSpace
                       (run [Open; PlusLazy isDot; Close; Eoi] [] None)
                       (S (0 + length pre + length (bracketed name)))
                       (u ++ t)
                else None).
        rewrite Ha. exact Hg. }
    simpl. destruct t' as [|b t']; [congruence|]. simpl. f_equal.
    rewrite <- (trim_spaces_app sp (b :: t') Hsp), <- Hsplit.
    now apply trim_spaces_app.
  - intros j Hj. rewrite drop_app_le by lia.
    destruct (lookup_lt_is_Some_2 pre j Hj) as [c Hc].
    rewrite (drop_S _ _ _ Hc). unfold bracketed. simpl.
    destruct (Ascii.eqb c "$") eqn:E; [|reflexivity].
    apply Ascii.eqb_eq in E as ->.
    now apply list_elem_of_lookup_2 in Hc.
Qed.

Lemma robot_value_of_definition_witness :
  extractRobotVariableValue
    (str "  " ++ bracketed (str "FOO") ++ str "    "
         ++ str "//div[@id='x']  ") (str "FOO")
  = Some (trim (str "//div[@id='x']  ")).
Proof.
  apply (robot_value_of_definition (str "  ") (str "FOO") (str "    ")
                                   (str "//div[@id='x']  ")).
  - reflexivity.
  - absent.
  - discriminate.
  - reflexivity.
  - discriminate.
  - reflexivity.
Defined.

(** ** The second version: what its hover tells *)

(** X16.  The second version of [provideHover] shows a hover only for a
    verified selector as well: the table has an entry of its own for the
    word at the cursor, the resolved value (that of the cursor line if it
    yields one, else that of the plain scan) is a non-empty string equal
    to the [xpath] or the [css] of the entry, and the photo exists.  It
    never touches the index. *)
Theorem legacy_hover_only_for_verified_selector
        (h : Host) (document : TextDocument) (position : Position)
        (nowMeta : Z) (st : Provider) (hover : Hover) :
  hoverOf (Legacy.provideHover h document position nowMeta st)
  = Some hover ->
  exists x root metadata st1 evs d v photoName lineText,
    wordAt document position = Some x /\ isWord x = true
    /\ workspaceFolder h = Some root
    /\ loadMetadata h (metadataFileOf h root) nowMeta st
       = (Normal (Some metadata), st1, evs)
    /\ metadata !! x = Some d
    /\ lines document !! line position = Some lineText
    /\ (extractVariableValue lineText x = Some v
        \/ (extractVariableValue lineText x = None
            /\ Legacy.findVariableAssignment document x = Some v))
    /\ v <> [] /\ (xpath d = Some v \/ css d = Some v)
    /\ photo d = Some photoName
    /\ existsSync h (path_join h (photosDirOf h root) photoName) = true
    /\ hover = hoverContent h (path_join h (photosDirOf h root) photoName)
                            (Own d)
    /\ variableAssignmentCache
         (stateOf (Legacy.provideHover h document position nowMeta st))
       = variableAssignmentCache st.
Proof.
  unfold Legacy.provideHover, Legacy.getVariableAtPosition, hoverOf,
    stateOf, Legacy.resolveValue.
  destruct (wordAt document position) as [word|]; [|discriminate].
  destruct (validWord word) as [x|] eqn:Hvalid; [|discriminate].
  assert (x = word) as ->
      by (unfold validWord in Hvalid;
          destruct (test wordRegex word); congruence).
  apply validWord_isWord in Hvalid.
  destruct (workspaceFolder h) as [root|]; [|discriminate].
  destruct (existsSync h (metadataFileOf h root)); [|discriminate].
  simpl negb. cbv iota.
  destruct (loadMetadata h (metadataFileOf h root) nowMeta st)
    as [[[[metadata|]|] st1] evs] eqn:Hload; try discriminate.
  destruct (loadMetadata_keeps_index _ _ _ _ _ _ _ Hload) as (Hkeep & _).
  destruct (lines document !! line position) as [lineText|];
    [|destruct (js_get metadata word); discriminate].
  assert (Hshown :
    forall element v,
      js_get metadata word = element ->
      (let '(hv, evs') := present h root element (VString v) in
       (hv, st1, evs ++ evs')).1.1 = Some hover ->
      exists d photoName,
        metadata !! word = Some d
        /\ v <> [] /\ (xpath d = Some v \/ css d = Some v)
        /\ photo d = Some photoName
        /\ existsSync h (path_join h (photosDirOf h root) photoName) = true
        /\ hover = hoverContent h (path_join h (photosDirOf h root)
                                             photoName) (Own d)
        /\ (let '(hv, evs') := present h root element (VString v) in
            (hv, st1, evs ++ evs')).1.2 = st1).
  { intros element v Hget.
    destruct (present h root element (VString v)) as [hv evs'] eqn:Hp.
    simpl. intros ->.
    apply present_Some in Hp
        as (d & v' & photoName & -> & [= <-] & Hv & Hsel & Hph & Hex
            & -> & _).
    exists d, photoName. repeat split; auto.
    unfold js_get in Hget. destruct (metadata !! word);
      [congruence | now destruct (inPrototype word)]. }
  destruct (extractVariableValue lineText word) as [v|] eqn:E.
  - rewrite (extractVariableValue_truthy _ _ _ E).
    destruct (js_get metadata word) as [d0| |] eqn:Hget; [| |discriminate];
      intros H;
      destruct (Hshown _ v eq_refl H)
        as (d & photoName & Hd & Hv & Hsel & Hph & Hex & Hhover & Hst);
      exists word, root, metadata, st1, evs, d, v, photoName, lineText;
      rewrite Hst; repeat split; auto; now left.
  - destruct (Legacy.findVariableAssignment document word) as [v|] eqn:F;
      [|destruct (js_get metadata word); discriminate].
    destruct (js_get metadata word) as [d0| |] eqn:Hget; [| |discriminate];
      intros H;
      destruct (Hshown _ v eq_refl H)
        as (d & photoName & Hd & Hv & Hsel & Hph & Hex & Hhover & Hst);
      exists word, root, metadata, st1, evs, d, v, photoName, lineText;
      rewrite Hst; repeat split; auto; right; now split.
Qed.

Lemma legacy_hover_only_for_verified_selector_witness :
  exists d v,
    btnTable !! str "BTN" = Some d
    /\ (xpath d = Some v \/ css d = Some v)
    /\ Legacy.findVariableAssignment btnSample (str "BTN") = Some v.
Proof.
  destruct (legacy_hover_only_for_verified_selector
              sampleHost btnSample (at_ 2 7) 10 newProvider
              [Image (str "file:///w/.photos/btn.png");
               TagLine (str "button"); XPathBlock (str "//button[1]")])
    as (x & root & metadata & st1 & evs & d & v & photoName & lineText
        & Hx & _ & Hroot & Hload & Hd & Hline & Hv & _ & Hsel & _).
  - vm_compute. reflexivity.
  - injection Hx as <-. injection Hroot as <-.
    injection Hload as <- _ _. injection Hline as <-.
    exists d, v. do 2 (split; [assumption|]).
    destruct Hv as [Hv|[_ Hv]]; [discriminate Hv | exact Hv].
Defined.

Lemma firstAssignment_finds (ls : list jsstr) (x l v : jsstr) :
  l ∈ ls -> extractVariableValue l x = Some v ->
  exists w, Legacy.firstAssignment ls x = Some w.
Proof.
  induction ls as [|a ls IH]; [now intros ?%elem_of_nil|].
  intros [->|Hin]%elem_of_cons Hl; simpl.
  - rewrite Hl, (extractVariableValue_truthy _ _ _ Hl). now exists v.
  - destruct (extractVariableValue a x) as [w|] eqn:E; [|now apply IH].
    rewrite (extractVariableValue_truthy _ _ _ E). now exists w.
Qed.

(** X17.  Outside Robot Framework the plain scan of the second version
    finds a value for every name the index has an entry for; the value
    is that of the index when no line above the one of the entry yields
    one for the name. *)
Theorem plain_scan_covers_index
        (document : TextDocument) (x v : jsstr) :
  isRobot document = false ->
  scanDocument document !! x = Some v ->
  (exists w, Legacy.findVariableAssignment document x = Some w)
  /\ ((forall l, l ∈ lines document -> extractVariableValue l x <> None ->
                 Some x ∈ listedNames false l) ->
      Legacy.findVariableAssignment document x = Some v).
Proof.
  intros Hrobot. rewrite scanDocument_lookup, Hrobot.
  destruct (inPrototype x); [discriminate|]. intros Hfirst. split.
  - destruct (firstRecorded_Some _ _ _ _ Hfirst) as (l & Hl & _ & He).
    now apply (firstAssignment_finds _ _ l v).
  - intros Hlisted. unfold Legacy.findVariableAssignment.
    now rewrite <- firstRecorded_firstAssignment.
Qed.

Lemma plain_scan_covers_index_witness :
  (exists w, Legacy.findVariableAssignment twiceSample (str "x") = Some w)
  /\ ((forall l, l ∈ lines twiceSample ->
                 extractVariableValue l (str "x") <> None ->
                 Some (str "x") ∈ listedNames false l) ->
      Legacy.findVariableAssignment twiceSample (str "x")
      = Some (str "a")).
Proof.
  apply (plain_scan_covers_index twiceSample (str "x") (str "a")).
  - reflexivity.
  - now rewrite scanDocument_lookup.
Defined.
